(** * Webex XSI call block: the call-event monitoring pipeline

    A shallow embedding of [app/call_monitor.py], [app/funcs.py],
    [app/database/crud.py] (the queries the monitor and the location
    endpoint use), the location-update route of [app/routes.py] and the
    console behind [app/logger/logrr.py], followed by the properties of
    the admission pipeline.

    Conventions.
    - Python values that travel through the event payloads are [pyval]s.
    - A Python call is a computation in [M]: it leaves a trace of the
      effects it performed (log lines, storage queries, hang-ups, ...) and
      ends with a value or with a raised exception.
    - A log line of the monitor that carries text of an event, of a call
      or of an exception is printed by [lnp], with its full text, on a
      console that may refuse it; the other lines are recorded by [log].
    - Timestamps, coordinates and durations are Python floats in the
      source; they are modelled by exact rationals ([Q]), so rounding of
      float subtraction is outside the model. *)

From Stdlib Require Import String Ascii List ZArith QArith Lqa Bool DecimalString.
From stdpp Require Import base option list gmap strings countable.

Set Warnings "-register-all".
Local Open Scope string_scope.
Local Open Scope list_scope.

(** ** Python values, exceptions and computations *)

Module Py.

(** The values found in a parsed event payload and in the roster's JSON:
    [None], booleans, strings, lists, and dicts with string keys (kept in
    insertion order). A string is a sequence of the 256 code points of
    Latin-1. *)
Inductive pyval : Type :=
| PNone
| PBool (b : bool)
| PStr (s : string)
| PList (l : list pyval)
| PDict (d : list (string * pyval)).

(** [bool(v)]. *)
Definition truthy (v : pyval) : bool :=
  match v with
  | PNone => false
  | PBool b => b
  | PStr s => negb (String.eqb s EmptyString)
  | PList l => match l with [] => false | _ => true end
  | PDict d => match d with [] => false | _ => true end
  end.

(** [v == "literal"], for a string literal. *)
Definition eq_str (v : pyval) (lit : string) : bool :=
  match v with
  | PStr s => String.eqb s lit
  | _ => false
  end.

(** An exception, with the text that [str(e)] gives. [SDKError] stands for
    what the telephony SDK raises, [MarkupError] is the console's. *)
Inductive exn : Type :=
| AttributeError (text : string)
| TypeError (text : string)
| KeyError (text : string)
| ValueError (text : string)
| SQLAlchemyError (text : string)
| SDKError (text : string)
| MarkupError (text : string).

(** [str(e)]. *)
Definition str_exn (e : exn) : string :=
  match e with
  | AttributeError text | TypeError text | KeyError text | ValueError text
  | SQLAlchemyError text | SDKError text | MarkupError text => text
  end.

Inductive pyres (A : Type) : Type :=
| Ok (a : A)
| Raise (e : exn).
Arguments Ok {A} a.
Arguments Raise {A} e.

(** [type(v).__name__]. *)
Definition type_name (v : pyval) : string :=
  match v with
  | PNone => "NoneType"
  | PBool _ => "bool"
  | PStr _ => "str"
  | PList _ => "list"
  | PDict _ => "dict"
  end.

(** The [AttributeError] of [v.attr] on a value without that attribute. *)
Definition no_attribute (v : pyval) (attr : string) : exn :=
  AttributeError
    ("'" +:+ type_name v +:+ "' object has no attribute '" +:+ attr +:+ "'").

(** The keys a Python dict accepts among [pyval]s: lists and dicts are
    unhashable. *)
Inductive hashable : Type :=
| HNone
| HBool (b : bool)
| HStr (s : string).

#[export] Instance hashable_eq_dec : EqDecision hashable.
Proof. solve_decision. Defined.

Definition hashable_enc (h : hashable) : option (bool + string) :=
  match h with
  | HNone => None
  | HBool b => Some (inl b)
  | HStr s => Some (inr s)
  end.

Definition hashable_dec (o : option (bool + string)) : hashable :=
  match o with
  | None => HNone
  | Some (inl b) => HBool b
  | Some (inr s) => HStr s
  end.

#[export] Instance hashable_countable : Countable hashable.
Proof.
  apply (inj_countable' hashable_enc hashable_dec).
  intros []; reflexivity.
Defined.

(** [hash(v)] succeeds or raises [TypeError: unhashable type]. *)
Definition to_key (v : pyval) : pyres hashable :=
  match v with
  | PNone => Ok HNone
  | PBool b => Ok (HBool b)
  | PStr s => Ok (HStr s)
  | PList _ | PDict _ =>
      Raise (TypeError ("unhashable type: '" +:+ type_name v +:+ "'"))
  end.

(** Lookup in a dict literal, by string key. *)
Fixpoint assoc (k : string) (d : list (string * pyval)) : option pyval :=
  match d with
  | [] => None
  | (k', v) :: rest => if String.eqb k k' then Some v else assoc k rest
  end.

(** [v.get(k, default)]: an [AttributeError] on anything but a dict. *)
Definition py_get (v : pyval) (k : string) (dflt : pyval) : pyres pyval :=
  match v with
  | PDict d => Ok (default dflt (assoc k d))
  | _ => Raise (no_attribute v "get")
  end.

(** [c.lower()], on Latin-1. *)
Definition ascii_lower (a : ascii) : ascii :=
  let n := nat_of_ascii a in
  if (Nat.leb 65 n && Nat.leb n 90)
     || (Nat.leb 192 n && Nat.leb n 222 && negb (Nat.eqb n 215))
  then ascii_of_nat (n + 32) else a.

Fixpoint lower (s : string) : string :=
  match s with
  | EmptyString => EmptyString
  | String a rest => String (ascii_lower a) (lower rest)
  end.

(** [v.lower()]: an [AttributeError] on anything but a string. *)
Definition py_lower (v : pyval) : pyres pyval :=
  match v with
  | PStr s => Ok (PStr (lower s))
  | _ => Raise (no_attribute v "lower")
  end.

(** *** Text of values, for the f-strings of the log lines *)

Definition SQUOTE : ascii := "'"%char.
Definition DQUOTE : ascii := ascii_of_nat 34.
Definition BACKSLASH : ascii := "\"%char.

Fixpoint contains (c : ascii) (s : string) : bool :=
  match s with
  | EmptyString => false
  | String a rest => Ascii.eqb a c || contains c rest
  end.

Definition hex_digit (n : nat) : ascii :=
  nth n (list_ascii_of_string "0123456789abcdef") "0"%char.

(** [\xhh]. *)
Definition hex_escape (c : ascii) : string :=
  let n := nat_of_ascii c in
  String BACKSLASH
    (String "x" (String (hex_digit (n / 16))
                   (String (hex_digit (n mod 16)) EmptyString))).

(** [c.isprintable()], on Latin-1. *)
Definition printable (c : ascii) : bool :=
  let n := nat_of_ascii c in
  (Nat.leb 32 n && Nat.leb n 126)
  || (Nat.leb 161 n && negb (Nat.eqb n 173)).

(** One character of [repr(s)], inside the quotes [quote]. *)
Definition repr_char (quote c : ascii) : string :=
  if Ascii.eqb c quote || Ascii.eqb c BACKSLASH
  then String BACKSLASH (String c EmptyString)
  else if Ascii.eqb c (ascii_of_nat 9) then String BACKSLASH "t"
  else if Ascii.eqb c (ascii_of_nat 10) then String BACKSLASH "n"
  else if Ascii.eqb c (ascii_of_nat 13) then String BACKSLASH "r"
  else if printable c then String c EmptyString
  else hex_escape c.

Fixpoint repr_chars (quote : ascii) (s : string) : string :=
  match s with
  | EmptyString => EmptyString
  | String c rest => repr_char quote c +:+ repr_chars quote rest
  end.

(** [repr(s)] of a string: single quotes, unless the string holds a
    single quote and no double quote. *)
Definition repr_str (s : string) : string :=
  let quote :=
    if contains SQUOTE s && negb (contains DQUOTE s) then DQUOTE
    else SQUOTE in
  String quote (repr_chars quote s +:+ String quote EmptyString).

(** [repr(v)]. *)
Fixpoint py_repr (v : pyval) : string :=
  match v with
  | PNone => "None"
  | PBool b => if b then "True" else "False"
  | PStr s => repr_str s
  | PList l => "[" +:+ String.concat ", " (List.map py_repr l) +:+ "]"
  | PDict d =>
      "{" +:+ String.concat ", "
                (List.map (λ '(k, x), repr_str k +:+ ": " +:+ py_repr x) d)
          +:+ "}"
  end.

(** [str(v)], which is what [f"{v}"] inserts. *)
Definition py_str (v : pyval) : string :=
  match v with
  | PStr s => s
  | _ => py_repr v
  end.

(** [str(n)] of a natural number. *)
Definition str_nat (n : nat) : string :=
  NilZero.string_of_uint (Nat.to_uint n).

End Py.
Export Py.

(** ** Computations: a trace of effects and an outcome *)

Module Run.

(** What the monitor does to the outside world. *)
Inductive effect : Type :=
| ELog (msg : string)                    (* a line of the log *)
| EQuery (user_id : string)              (* [check_user_permission(user_id)] *)
| EReject (user_id call_id : pyval)      (* [reject_call(user_id, call_id)] *)
| EHangup (call_id : string)             (* [call.hangup()] *)
| EStartXsi (person_id : string)         (* [person.start_xsi()] *)
| ESleep.                                (* [time.sleep(0.5)] *)

Record M (A : Type) : Type := Run { trace : list effect; outcome : pyres A }.
Arguments Run {A} trace outcome.
Arguments trace {A} m.
Arguments outcome {A} m.

#[export] Instance pyres_ret : MRet pyres := λ A a, Ok a.
#[export] Instance pyres_bind : MBind pyres := λ A B f r,
  match r with
  | Ok a => f a
  | Raise e => Raise e
  end.

#[export] Instance M_ret : MRet M := λ A a, Run [] (Ok a).
#[export] Instance M_bind : MBind M := λ A B f m,
  match outcome m with
  | Ok a => Run (trace m ++ trace (f a)) (outcome (f a))
  | Raise e => Run (trace m) (Raise e)
  end.

Definition emit (e : effect) : M unit := Run [e] (Ok tt).

(** A log line that is recorded by the constant part of its message, and
    whose printing is taken to succeed. It stands for the lines whose
    text is fixed or holds nothing but account ids, stored rows and
    Python's own error texts, for the lines of [lm.logger], which go to
    the log file only, and for the lines of the location-update route,
    whose console is outside the model. *)
Definition log (msg : string) : M unit := emit (ELog msg).

Definition raise {A} (e : exn) : M A := Run [] (Raise e).
Definition lift {A} (r : pyres A) : M A := Run [] r.

(** [try: body  except Exception as e: handler(e)]. *)
Definition try_except {A} (body : M A) (handler : exn → M A) : M A :=
  match outcome body with
  | Ok a => body
  | Raise e => Run (trace body ++ trace (handler e)) (outcome (handler e))
  end.

(** The effects that make up an admission decision. *)
Definition is_query (e : effect) : bool :=
  match e with EQuery _ => true | _ => false end.
Definition is_reject (e : effect) : bool :=
  match e with EReject _ _ => true | _ => false end.
Definition is_hangup (e : effect) : bool :=
  match e with EHangup _ => true | _ => false end.
Definition is_decision (e : effect) : bool :=
  is_query e || is_reject e || is_hangup e.

(** The decision an execution took: its trace without log lines, start-up
    subscriptions and pauses. *)
Definition decisions {A} (m : M A) : list effect :=
  List.filter is_decision (trace m).

End Run.
Export Run.

(** ** The console: [logger/logrr.py] and [rich.markup] *)

Module Rich.

(** [RE_TAGS] matches a run of backslashes, an opening bracket, one
    character among [a-z], [#], [/] and [@], and then as few characters
    other than an opening bracket as it takes to reach a closing bracket.
    This is the test on the first character. *)
Definition tag_start (c : ascii) : bool :=
  let n := nat_of_ascii c in
  (Nat.leb 97 n && Nat.leb n 122)
  || Ascii.eqb c "#" || Ascii.eqb c "/" || Ascii.eqb c "@".

(** Where the scan for the next match of [RE_TAGS] stands: in plain text
    after a run of backslashes; just after a bracket that was opened at
    index [at_] behind [escapes] backslashes; or inside the text of the
    tag opened there, which ends in a run of [backslashes]. *)
Inductive scan : Type :=
| Plain (backslashes : nat)
| Opened (escapes at_ : nat)
| Inside (escapes at_ : nat) (text : list ascii) (backslashes : nat).

(** [_parse], as far as tags go: the tags of [markup] that are not
    escaped, each with its position. A bracket met inside a tag abandons
    the tag and may open the next one; an odd number of backslashes
    before the bracket escapes the tag. *)
Fixpoint tags_from (st : scan) (position : nat) (markup : string)
    : list (nat * string) :=
  match markup with
  | EmptyString => []
  | String c rest =>
      let next := S position in
      match st with
      | Plain backslashes =>
          if Ascii.eqb c BACKSLASH
          then tags_from (Plain (S backslashes)) next rest
          else if Ascii.eqb c "["
          then tags_from (Opened backslashes position) next rest
          else tags_from (Plain 0) next rest
      | Opened escapes at_ =>
          if tag_start c
          then tags_from (Inside escapes at_ [c] 0) next rest
          else if Ascii.eqb c "["
          then tags_from (Opened 0 position) next rest
          else if Ascii.eqb c BACKSLASH
          then tags_from (Plain 1) next rest
          else tags_from (Plain 0) next rest
      | Inside escapes at_ text backslashes =>
          if Ascii.eqb c "]"
          then (if Nat.even escapes
                then [(at_, string_of_list_ascii (rev text))]
                else [])
               ++ tags_from (Plain 0) next rest
          else if Ascii.eqb c "["
          then tags_from (Opened backslashes position) next rest
          else if Ascii.eqb c BACKSLASH
          then tags_from (Inside escapes at_ (c :: text) (S backslashes))
                 next rest
          else tags_from (Inside escapes at_ (c :: text) 0) next rest
      end
  end.

Record Tag : Type := {
  name : string;
  parameters : option string
}.

(** [text, equals, parameters = tag_text.partition("=")]. *)
Fixpoint partition_equals (tag_text : string) : Tag :=
  match tag_text with
  | EmptyString => {| name := EmptyString; parameters := None |}
  | String c rest =>
      if Ascii.eqb c "="
      then {| name := EmptyString; parameters := Some rest |}
      else let tag := partition_equals rest in
           {| name := String c (name tag); parameters := parameters tag |}
  end.

(** [Tag.markup]. *)
Definition tag_markup (tag : Tag) : string :=
  match parameters tag with
  | None => "[" +:+ name tag +:+ "]"
  | Some p => "[" +:+ name tag +:+ "=" +:+ p +:+ "]"
  end.

(** [c.isspace()], on Latin-1. *)
Definition is_space (c : ascii) : bool :=
  let n := nat_of_ascii c in
  (Nat.leb 9 n && Nat.leb n 13) || (Nat.leb 28 n && Nat.leb n 32)
  || Nat.eqb n 133 || Nat.eqb n 160.

Fixpoint lstrip (s : string) : string :=
  match s with
  | EmptyString => EmptyString
  | String c rest => if is_space c then lstrip rest else s
  end.

Fixpoint rstrip (s : string) : string :=
  match s with
  | EmptyString => EmptyString
  | String c rest =>
      match rstrip rest with
      | EmptyString => if is_space c then EmptyString
                       else String c EmptyString
      | kept => String c kept
      end
  end.

(** [s.strip()]. *)
Definition strip (s : string) : string := rstrip (lstrip s).

Definition starts_with (c : ascii) (s : string) : bool :=
  match s with
  | String a _ => Ascii.eqb a c
  | EmptyString => false
  end.

Definition drop_first (s : string) : string :=
  match s with
  | String _ rest => rest
  | EmptyString => EmptyString
  end.

(** [pop_style]: remove the innermost open tag of that name. The head of
    the stack is the innermost tag. *)
Fixpoint pop_style (style_name : string) (style_stack : list Tag)
    : option (Tag * list Tag) :=
  match style_stack with
  | [] => None
  | tag :: below =>
      if String.eqb (name tag) style_name then Some (tag, below)
      else '(found, rest) ← pop_style style_name below;
           Some (found, tag :: rest)
  end.

Section Render.
(** Two functions of the library are left as they are: [Style.normalize],
    which brings a style name to its canonical form, and the parsing of
    the parameters of an event-handler tag ([ast.literal_eval]), which
    returns the text of its [MarkupError] when it fails. *)
Variable normalize : string → string.
Variable check_handler : string → option string.

(** The loop of [render] over the tags, as far as its errors go. *)
Fixpoint render_tags (style_stack : list Tag) (tags : list (nat * string))
    : pyres unit :=
  match tags with
  | [] => Ok tt
  | (position, tag_text) :: rest =>
      let tag := partition_equals tag_text in
      if starts_with "/" (name tag) then
        let style_name := strip (drop_first (name tag)) in
        popped ←
          (if negb (String.eqb style_name EmptyString) then
             match pop_style (normalize style_name) style_stack with
             | Some popped => Ok popped
             | None =>
                 Raise (MarkupError
                   ("closing tag '" +:+ tag_markup tag +:+ "' at position "
                    +:+ str_nat position
                    +:+ " doesn't match any open tag"))
             end
           else
             match style_stack with
             | open_tag :: below => Ok (open_tag, below)
             | [] =>
                 Raise (MarkupError
                   ("closing tag '[/]' at position " +:+ str_nat position
                    +:+ " has nothing to close"))
             end);
        let open_tag := popped.1 in
        (if starts_with "@" (name open_tag) then
           match parameters open_tag with
           | Some p =>
               if String.eqb p EmptyString then Ok tt
               else match check_handler p with
                    | Some text => Raise (MarkupError text)
                    | None => Ok tt
                    end
           | None => Ok tt
           end
         else Ok tt);;
        render_tags popped.2 rest
      else
        render_tags
          ({| name := normalize (name tag); parameters := parameters tag |}
           :: style_stack)
          rest
  end.

(** [rich.markup.render], as far as its errors go: what
    [Console.print(message)] does with the markup of a message. *)
Definition render (markup : string) : pyres unit :=
  render_tags [] (tags_from (Plain 0) 0 markup).
End Render.

(** [LoggerManager], reduced to its console: [Console.print] of a text
    ends normally or raises. The styles that the monitor passes are all
    defined by the theme of [logger/custom_themes.py]. *)
Record LoggerManager : Type := {
  console_print : string → pyres unit
}.

(** The logger whose console is rich's. *)
Definition rich (normalize : string → string)
    (check_handler : string → option string) : LoggerManager :=
  {| console_print := render normalize check_handler |}.

End Rich.
Export Rich.

(** [lm.lnp(message)] for a line that carries text of an event, of a call
    or of an exception: the line goes to the log file, then to the
    console, which may refuse it. *)
Definition lnp (lm : LoggerManager) (message : string) : M unit :=
  emit (ELog message);;
  lift (console_print lm message).

(** ** The event classifier *)

Definition EVT_RECEIVED : string := "xsi:CallReceivedEvent".
Definition EVT_ORIGINATED : string := "xsi:CallOriginatedEvent".

(** The body of the [try] block of [CallMonitor.extract_event_details]. *)
Definition extract_event_details_body (event : pyval) : pyres pyval :=
  xsi_event ← py_get event "xsi:Event" (PDict []);
  event_data ← py_get xsi_event "xsi:eventData" (PDict []);
  event_type ← py_get event_data "@xsi1:type" (PDict []);
  call_info ← py_get event_data "xsi:call" (PDict []);
  xsi_event' ← py_get event "xsi:Event" (PDict []);
  xsitargetId ← py_get xsi_event' "xsi:targetId" (PDict []);
  call_id ← py_get call_info "xsi:callId" (PStr EmptyString);
  remote_party_info ← py_get call_info "xsi:remoteParty" (PDict []);
  userId ← py_get remote_party_info "xsi:userId" (PDict []);
  name ← py_get remote_party_info "xsi:name" (PStr EmptyString);
  remote_party_name ← py_lower name;
  dn ← py_get remote_party_info "xsi:userDN" (PDict []);
  dn_text ← py_get dn "#text" (PStr EmptyString);
  userDN ← (if truthy dn_text then Ok dn_text
            else addr ← py_get remote_party_info "xsi:address" (PDict []);
                 py_get addr "#text" (PStr EmptyString));
  Ok (PDict [("event_type", event_type);
             ("call_id", call_id);
             ("user_id", userId);
             ("target_id", xsitargetId)]).

(** [CallMonitor.extract_event_details] (a static method). *)
Definition extract_event_details (event : pyval) : M pyval :=
  try_except (lift (extract_event_details_body event))
    (λ e, log "Error extracting event details";; mret (PDict [])).

(** ** Configuration and [funcs.py] *)

Record Config : Type := {
  LAT_MIN : Q;
  LAT_MAX : Q;
  LON_MIN : Q;
  LON_MAX : Q;
  GEOLOCATION_TIMEOUT : Z
}.

(** The values of [config/settings.py]. *)
Definition settings : Config := {|
  LAT_MIN := 10; LAT_MAX := 20; LON_MIN := 30; LON_MAX := 100;
  GEOLOCATION_TIMEOUT := 30
|}.

(** [x > y] on numbers. *)
Definition Qgtb (x y : Q) : bool := negb (Qle_bool x y).

Definition in_country (c : Config) (latitude longitude : Q) : bool :=
  Qle_bool (LAT_MIN c) latitude && Qle_bool latitude (LAT_MAX c)
  && Qle_bool (LON_MIN c) longitude && Qle_bool longitude (LON_MAX c).

(** One element of the ["geolocation_data"] list that the storage layer
    returns. [g_last_update] is what [.get('last_update')] yields. *)
Record GeoSample : Type := {
  g_time : string;
  g_latitude : Q;
  g_longitude : Q;
  g_last_update : option Q
}.

Definition is_geolocation_timeout (c : Config) (current_time : Q)
    (geolocation_data : GeoSample) : M bool :=
  match g_last_update geolocation_data with
  | None =>
      log "No last update time found; defaulting to timeout.";; mret true
  | Some last_update =>
      if Qgtb (current_time - last_update) (inject_Z (GEOLOCATION_TIMEOUT c))
      then log "Geolocation update has timed out.";; mret true
      else log "Geolocation update is within the allowed period.";; mret false
  end.

(** ** Storage: [database/models.py] and the queries of [database/crud.py] *)

Module DB.

Record UserList : Type := {
  ul_user_id : string;
  ul_session_token : string
}.

Record AllowList : Type := {
  al_user_id : string;
  al_allow_caller : bool
}.

(** The autoincrement key [id] of a row is its position in the table. *)
Record TimeLocation : Type := {
  tl_user_id : string;
  tl_session_token : string;
  tl_time : string;
  tl_latitude : Q;
  tl_longitude : Q;
  tl_last_update : Q
}.

Record Database : Type := {
  user_list : list UserList;
  allow_list : list AllowList;
  time_locations : list TimeLocation
}.

(** A session either reaches the database or fails every query with a
    [SQLAlchemyError] of some text. *)
Inductive Session : Type :=
| Connected (db : Database)
| Broken (text : string).

(** The dict built by [get_allow_list_entry_by_user_id]. *)
Record AllowListData : Type := {
  d_user_id : string;
  d_allow_caller : bool;
  geolocation_data : list GeoSample
}.

Definition sample_of (r : TimeLocation) : GeoSample := {|
  g_time := tl_time r;
  g_latitude := tl_latitude r;
  g_longitude := tl_longitude r;
  g_last_update := Some (tl_last_update r)
|}.

(** [entry.time_locations]: the rows whose foreign key is the entry. *)
Definition time_locations_of (db : Database) (user_id : string)
    : list TimeLocation :=
  List.filter (λ r, String.eqb (tl_user_id r) user_id) (time_locations db).

Definition query_allow_list (db : Database) (user_id : string)
    : option AllowList :=
  List.find (λ r, String.eqb (al_user_id r) user_id) (allow_list db).

Definition get_allow_list_entry_by_user_id (s : Session) (user_id : string)
    : M (option AllowListData) :=
  match s with
  | Broken text => raise (SQLAlchemyError text)
  | Connected db =>
      match query_allow_list db user_id with
      | Some allow_list_entry =>
          mret (Some {|
            d_user_id := al_user_id allow_list_entry;
            d_allow_caller := al_allow_caller allow_list_entry;
            geolocation_data :=
              List.map sample_of
                (time_locations_of db (al_user_id allow_list_entry))
          |})
      | None => log "No allow list entry found for user_id";; mret None
      end
  end.

(** [read_user_list(session_token=...)]: [user_id] is not given. *)
Definition read_user_list_by_token (s : Session) (session_token : string)
    : M (option UserList) :=
  if String.eqb session_token EmptyString
  then raise (ValueError "Either user_id or session_token must be provided.")
  else match s with
       | Broken text => raise (SQLAlchemyError text)
       | Connected db =>
           match List.find (λ r, String.eqb (ul_session_token r) session_token)
                   (user_list db) with
           | Some r => mret (Some r)
           | None => log "No user list entry found";; mret None
           end
       end.

Definition create_allow_list_entry (db : Database) (user_id : string)
    (allow_caller : bool) : Database := {|
  user_list := user_list db;
  allow_list := allow_list db ++
    [{| al_user_id := user_id; al_allow_caller := allow_caller |}];
  time_locations := time_locations db
|}.

(** Overwrite the first row of [user_id] in place. *)
Fixpoint update_first (user_id : string) (new : TimeLocation)
    (rows : list TimeLocation) : option (list TimeLocation) :=
  match rows with
  | [] => None
  | r :: rest =>
      if String.eqb (tl_user_id r) user_id then Some (new :: rest)
      else cons r <$> update_first user_id new rest
  end.

(** [update_time_location_entry], which falls back on
    [create_time_location_entry]; [now] is the clock read for
    [last_update]. The write goes through [commit_db], whose commit is
    taken to succeed. *)
Definition update_time_location_entry (db : Database) (now : Q)
    (user_id session_token time : string) (latitude longitude : Q)
    : Database :=
  let row := {|
    tl_user_id := user_id; tl_session_token := session_token;
    tl_time := time; tl_latitude := latitude; tl_longitude := longitude;
    tl_last_update := now |} in
  {| user_list := user_list db;
     allow_list := allow_list db;
     time_locations :=
       match update_first user_id row (time_locations db) with
       | Some rows => rows
       | None => time_locations db ++ [row]
       end |}.

End DB.
Export DB.

(** ** The permission oracle *)

(** The [TypeError] of [kx > kb] when a key is [None]. *)
Definition not_comparable (kx kb : option Q) : exn :=
  let type_of (k : option Q) : string :=
    match k with Some _ => "float" | None => "NoneType" end in
  TypeError ("'>' not supported between instances of '" +:+ type_of kx
             +:+ "' and '" +:+ type_of kb +:+ "'").

(** [max(samples, key=lambda x: x['last_update'])]: the first sample with
    the greatest key. Comparing with a missing key is a [TypeError], an
    empty list a [ValueError]. *)
Fixpoint max_from (best : GeoSample) (rest : list GeoSample)
    : pyres GeoSample :=
  match rest with
  | [] => Ok best
  | x :: rest' =>
      match g_last_update x, g_last_update best with
      | Some kx, Some kb => max_from (if Qgtb kx kb then x else best) rest'
      | kx, kb => Raise (not_comparable kx kb)
      end
  end.

Definition max_last_update (samples : list GeoSample) : pyres GeoSample :=
  match samples with
  | [] => Raise (ValueError "max() arg is an empty sequence")
  | x :: rest => max_from x rest
  end.

(** The clock and the storage as one call of the monitor finds them. *)
Record World : Type := {
  session : Session;
  now : Q
}.

(** [CallMonitor.check_user_permission] (a static method). The sample that
    [max] returns is a non-empty dict, so the source's branch for a falsy
    [latest_time_location] cannot be taken. *)
Definition check_user_permission (c : Config) (w : World) (user_id : string)
    : M bool :=
  emit (EQuery user_id);;
  user_allow_list_entry ← get_allow_list_entry_by_user_id (session w) user_id;
  match user_allow_list_entry with
  | Some entry =>
      match geolocation_data entry with
      | _ :: _ =>
          latest_time_location ← lift (max_last_update (geolocation_data entry));
          log "Latest geolocation data for user";;
          timed_out ← is_geolocation_timeout c (now w) latest_time_location;
          if negb timed_out
          then log "ALLOWED: User is within geolocation update period.";;
               mret true
          else log "BLOCKED: User's geolocation update has timed out.";;
               mret false
      | [] =>
          log "User is not in the allow list or has no geolocation data.";;
          mret false
      end
  | None =>
      log "User is not in the allow list or has no geolocation data.";;
      mret false
  end.

(** ** The monitor: [CallMonitor] *)

(** What the telephony SDK answers. [hangup], [calls], [profile] and
    [start_xsi] are requests to the platform; each ends normally or
    raises. *)
Record Call : Type := {
  call_id_of : string;
  hangup : pyres unit
}.

Record XSI : Type := {
  calls : pyres (list Call);
  profile : pyres pyval
}.

Record Person : Type := {
  person_id : string;
  person_name : string;
  wxc_numbers : pyval;
  start_xsi : pyres unit;
  xsi : XSI
}.

(** One value of [xsi_user_map]. *)
Record DirectoryEntry : Type := {
  remote_party_name : string;
  xsi_user_id : pyval;
  webex_user_id : string;
  phone_number : pyval;
  extension : pyval;
  xsi_instance : option XSI
}.

Record CallMonitor : Type := {
  all_people : list Person;
  xsi_user_map : gmap hashable DirectoryEntry;
  call_to_user_map : gmap hashable pyval
}.

(** [d.get(k)] on a Python dict: unhashable keys raise. *)
Definition dict_get {V} (d : gmap hashable V) (k : pyval) : pyres (option V) :=
  h ← to_key k; Ok (d !! h).

(** [next((pn for pn in l if pn.get('primary', False)), dflt)]. *)
Fixpoint first_primary (l : list pyval) (dflt : pyval) : pyres pyval :=
  match l with
  | [] => Ok dflt
  | pn :: rest =>
      primary ← py_get pn "primary" (PBool false);
      if truthy primary then Ok pn else first_primary rest dflt
  end.

(** The primary phone number of a roster member. A list is scanned; the
    other values either are empty, or fail when iterated, indexed or asked
    for [.get]. *)
Definition primary_phone_number (phone_numbers_info : pyval) : pyres pyval :=
  match phone_numbers_info with
  | PList l => first_primary l (match l with [] => PNone | x :: _ => x end)
  | PStr s =>
      if String.eqb s EmptyString then Ok PNone
      else Raise (no_attribute phone_numbers_info "get")
  | PDict d => match d with [] => Ok PNone | _ => Raise (KeyError "0") end
  | PNone | PBool _ =>
      Raise (TypeError ("'" +:+ type_name phone_numbers_info
                        +:+ "' object is not iterable"))
  end.

(** ['extension' in v]; [v] is a dict whenever this is reached, since
    [v.get] came first. *)
Definition has_extension (v : pyval) : pyres bool :=
  match v with
  | PDict d => Ok (bool_decide (is_Some (assoc "extension" d)))
  | _ =>
      Raise (TypeError ("argument of type '" +:+ type_name v
                        +:+ "' is not iterable"))
  end.

(** The directory entry of a roster member and the key it is stored
    under: the part of the roster loop of [CallMonitor.__init__] that
    follows [person.start_xsi()]. *)
Definition entry_of (person : Person) : pyres (hashable * DirectoryEntry) :=
  let xsi_instance := xsi person in
  let phone_numbers_info :=
    match wxc_numbers person with
    | PDict d => default (PList []) (assoc "phoneNumbers" d)
    | _ => PList []
    end in
  primary ← primary_phone_number phone_numbers_info;
  direct_number ← (if truthy primary
                   then py_get primary "directNumber" PNone
                   else Ok (PStr "No number available"));
  extension ← (if truthy primary
               then (has ← has_extension primary;
                     if (has : bool) then py_get primary "extension" PNone
                     else Ok (PStr EmptyString))
               else Ok (PStr EmptyString));
  profile_info ← profile xsi_instance;
  xsi_user_id ← py_get profile_info "user_id" PNone;
  key ← to_key xsi_user_id;
  Ok (key, {|
    remote_party_name := person_name person;
    xsi_user_id := xsi_user_id;
    webex_user_id := person_id person;
    phone_number := direct_number;
    extension := extension;
    xsi_instance := Some xsi_instance |}).

(** The body of the roster loop: [self.xsi_user_map[xsi_user_id] = ...]. *)
Definition add_person (person : Person)
    (m : gmap hashable DirectoryEntry) : M (gmap hashable DirectoryEntry) :=
  emit (EStartXsi (person_id person));;
  lift (start_xsi person);;
  ke ← lift (entry_of person);
  mret (<[ke.1 := ke.2]> m).

Fixpoint add_people (people : list Person)
    (m : gmap hashable DirectoryEntry) : M (gmap hashable DirectoryEntry) :=
  match people with
  | [] => mret m
  | person :: rest => m' ← add_person person m; add_people rest m'
  end.

(** [CallMonitor.__init__], from the roster that
    [self.webex.org.wxc_people] returned. *)
Definition init (people : list Person) : M CallMonitor :=
  m ← add_people people ∅;
  log "XSI user map";;
  log "Call Monitoring Initiated";;
  mret {| all_people := people; xsi_user_map := m; call_to_user_map := ∅ |}.

(** *** The lines that carry text of an event, of a call or of an
    exception: the f-strings of [call_monitor.py] *)

Definition processing_line (event_type event_details : pyval) : string :=
  "Processing " +:+ py_str event_type +:+ ". Details: "
  +:+ py_str event_details.

Definition handling_line (event_type call_id xsi_user_id xsi_target_id : pyval)
    : string :=
  "Handling call event. Type: " +:+ py_str event_type
  +:+ ", Call ID: " +:+ py_str call_id
  +:+ ", Caller: " +:+ py_str xsi_user_id
  +:+ ", Call Receiver: " +:+ py_str xsi_target_id.

Definition unhandled_line (event_type : pyval) : string :=
  "Unhandled event type " +:+ py_str event_type.

Definition error_line (e : exn) : string :=
  "Error handling call event " +:+ str_exn e.

Definition internal_line (call_id : pyval) : string :=
  "Both parties are internal, allowing call " +:+ py_str call_id.

Definition inbound_allowing_line (internal_webex_user_id : string)
    (call_id : pyval) : string :=
  "External to internal call (inbound) and internal user "
  +:+ internal_webex_user_id +:+ " is in country, allowing call "
  +:+ py_str call_id.

Definition inbound_blocking_line (internal_webex_user_id : string)
    (call_id : pyval) : string :=
  "External to internal call and internal user "
  +:+ internal_webex_user_id +:+ " is out of country, blocking call "
  +:+ py_str call_id.

Definition outbound_allowing_line (internal_webex_user_id : string)
    (call_id : pyval) : string :=
  "Internal to External call (outbound) and internal user "
  +:+ internal_webex_user_id +:+ " is in country; allowing call "
  +:+ py_str call_id.

Definition outbound_blocking_line (internal_webex_user_id : string)
    (call_id : pyval) : string :=
  "Internal to External call and internal user "
  +:+ internal_webex_user_id +:+ " is out of country; blocking call "
  +:+ py_str call_id.

Definition ended_line (call : Call) : string :=
  "Ended call with Call ID: " +:+ call_id_of call.

Definition failed_line (call_id : pyval) (e : exn) : string :=
  "Failed to end the call with Call ID: " +:+ py_str call_id
  +:+ ". Error: " +:+ str_exn e.

Definition no_active_call_line (call_id : pyval) : string :=
  "No active call found for Call ID: " +:+ py_str call_id +:+ ".".

Definition loop_error_line (e : exn) : string :=
  "Error in the monitoring loop: " +:+ str_exn e.

(** The inner loop of [reject_call]: every hang-up has its own handler,
    and the handler prints. *)
Fixpoint hangup_all (lm : LoggerManager) (call_id : pyval)
    (active_calls : list Call) : M unit :=
  match active_calls with
  | [] => mret tt
  | call :: rest =>
      try_except
        (emit (EHangup (call_id_of call));;
         lift (hangup call);;
         lnp lm (ended_line call))
        (λ e, lnp lm (failed_line call_id e));;
      hangup_all lm call_id rest
  end.

(** [CallMonitor.reject_call]. The line for a user without an entry goes
    through [lm.logger.error], to the log file only. *)
Definition reject_call (lm : LoggerManager) (self : CallMonitor)
    (user_id call_id : pyval) : M unit :=
  emit (EReject user_id call_id);;
  user_entry ← lift (dict_get (xsi_user_map self) user_id);
  match user_entry with
  | None => log "No XSI instance found for User ID"
  | Some user_entry =>
      match xsi_instance user_entry with
      | Some xsi_instance =>
          try_except
            (active_calls ← lift (calls xsi_instance);
             hangup_all lm call_id active_calls)
            (λ e, lnp lm (failed_line call_id e))
      | None => lnp lm (no_active_call_line call_id)
      end
  end.

(** [self.xsi_user_map.get(id) if id else None]: how the monitor resolves
    an internal id of an event against the directory. *)
Definition resolve (self : CallMonitor) (id : pyval)
    : pyres (option DirectoryEntry) :=
  if truthy id then dict_get (xsi_user_map self) id else Ok None.

Definition handle_internal_call (lm : LoggerManager) (self : CallMonitor)
    (xsi_user_id xsi_target_id call_id : pyval) : M unit :=
  caller_entry ← lift (resolve self xsi_user_id);
  receiver_entry ← lift (resolve self xsi_target_id);
  match caller_entry, receiver_entry with
  | Some _, Some _ => lnp lm (internal_line call_id)
  | _, _ => mret tt
  end.

Definition handle_external_call (lm : LoggerManager) (c : Config) (w : World)
    (self : CallMonitor) (internal_xsi_user_id call_id event_type : pyval)
    : M unit :=
  entry ← lift (dict_get (xsi_user_map self) internal_xsi_user_id);
  let internal_webex_user_id := webex_user_id <$> entry in
  match internal_webex_user_id with
  | Some acct =>
      if eq_str event_type EVT_RECEIVED && negb (String.eqb acct EmptyString) then
        permitted ← check_user_permission c w acct;
        if (permitted : bool)
        then lnp lm (inbound_allowing_line acct call_id)
        else lnp lm (inbound_blocking_line acct call_id);;
             reject_call lm self internal_xsi_user_id call_id
      else if eq_str event_type EVT_ORIGINATED && negb (String.eqb acct EmptyString) then
        permitted ← check_user_permission c w acct;
        if (permitted : bool)
        then lnp lm (outbound_allowing_line acct call_id)
        else lnp lm (outbound_blocking_line acct call_id);;
             reject_call lm self internal_xsi_user_id call_id
      else mret tt
  | None => mret tt
  end.

(** [event_type in ["xsi:CallReceivedEvent", "xsi:CallOriginatedEvent"]]. *)
Definition actionable (event_type : pyval) : bool :=
  eq_str event_type EVT_RECEIVED || eq_str event_type EVT_ORIGINATED.

(** [CallMonitor.handle_event]. After its line the handler calls
    [traceback.print_exc()], which writes to the standard error stream
    and not to the console. *)
Definition handle_event (lm : LoggerManager) (c : Config) (w : World)
    (self : CallMonitor) (event : pyval) : M unit :=
  event_details ← extract_event_details event;
  event_type ← lift (py_get event_details "event_type" PNone);
  if negb (truthy event_details)
  then log "Event details could not be extracted."
  else
    try_except
      (if actionable event_type
       then
         lnp lm (processing_line event_type event_details);;
         call_id ← lift (py_get event_details "call_id" PNone);
         xsi_user_id ← lift (py_get event_details "user_id" PNone);
         xsi_target_id ← lift (py_get event_details "target_id" PNone);
         lnp lm (handling_line event_type call_id xsi_user_id xsi_target_id);;
         let internal_xsi_user_id :=
           if truthy xsi_target_id then xsi_target_id else xsi_user_id in
         if truthy xsi_user_id && truthy xsi_target_id
         then handle_internal_call lm self xsi_user_id xsi_target_id call_id
         else if truthy internal_xsi_user_id
         then handle_external_call lm c w self xsi_target_id call_id event_type
         else lnp lm (unhandled_line event_type)
       else mret tt)
      (λ e, lnp lm (error_line e)).

(** One turn of the [while True] loop of [monitor_calls], for a handler
    [handle] that may raise. [format_exc] gives the text of
    [traceback.format_exc()] for the exception that is being handled. *)
Definition monitor_step (lm : LoggerManager) (format_exc : exn → string)
    (handle : pyval → M unit) (event : pyval) : M unit :=
  try_except
    (if truthy event then handle event;; emit ESleep else mret tt)
    (λ e, lnp lm (format_exc e);; lnp lm (loop_error_line e)).

(** The loop blocks on an empty queue and never returns: its run over the
    events that were queued, in arrival order, each with the clock and
    the storage as they are when the loop takes the event from the
    queue. *)
Fixpoint monitor_loop (lm : LoggerManager) (format_exc : exn → string)
    (handle : World → pyval → M unit) (events_queue : list (World * pyval))
    : M unit :=
  match events_queue with
  | [] => mret tt
  | (w, event) :: rest =>
      monitor_step lm format_exc (handle w) event;;
      monitor_loop lm format_exc handle rest
  end.


(** ** The location-update route of [routes.py] *)

(** Modelled from the spec: the request schema [TimeLocationData] is
    declared in a module that is not part of the sources; these are the
    fields that the route reads. *)
Record TimeLocationData : Type := {
  sessionToken : string;
  time : string;
  latitude : Q;
  longitude : Q
}.

Inductive Response : Type :=
| JSONResponse (status_code : Z) (message : string).

(** [update_time_location_db]: the response and the session it leaves.
    The storage of one request is all or nothing: a session answers every
    query and write of the request, or fails them all, and a request that
    fails is rolled back. A commit that fails between two writes of one
    request, and a console that refuses a line of the route, are outside
    this model of the route. *)
Definition update_time_location_db (c : Config) (now : Q)
    (data : TimeLocationData) (s : Session) : M (Response * Session) :=
  try_except
    (log "Geolocation update received for user session";;
     log "Geolocation update received with data";;
     user_list_entry ← read_user_list_by_token s (sessionToken data);
     match user_list_entry with
     | None => mret (JSONResponse 401 "Invalid session token", s)
     | Some user_list_entry =>
         let user_id := ul_user_id user_list_entry in
         let user_is_in_country :=
           in_country c (latitude data) (longitude data) in
         if negb user_is_in_country
         then
           log "User unauthorized: user location outside boundaries of allowed country";;
           mret (JSONResponse 403
                   "User unauthorized: user location outside boundaries of allowed country",
                 s)
         else
           allow_list_entry ← get_allow_list_entry_by_user_id s user_id;
           match s with
           | Broken text => raise (SQLAlchemyError text)
           | Connected db =>
               match allow_list_entry with
               | Some _ =>
                   mret (JSONResponse 200
                           "Geolocation updated successfully in database",
                         Connected
                           (update_time_location_entry db now user_id
                              (sessionToken data) (time data)
                              (latitude data) (longitude data)))
               | None =>
                   log "User not in allow list but within geolocation boundaries, adding to allow list.";;
                   mret (JSONResponse 200
                           "Geolocation updated and user added to AllowList",
                         Connected
                           (update_time_location_entry
                              (create_allow_list_entry db user_id true)
                              now user_id
                              (sessionToken data) (time data)
                              (latitude data) (longitude data)))
               end
           end
     end)
    (λ e,
       match e with
       | SQLAlchemyError _ =>
           log "Database error occurred while updating geolocation";;
           mret (JSONResponse 500
                   "Database error occurred while updating geolocation", s)
       | _ =>
           log "Unexpected error occurred while updating geolocation";;
           mret (JSONResponse 500
                   "Unexpected error occurred while updating geolocation", s)
       end).

(** ** Vocabulary of the properties *)

(** The value found in a payload by following [path] through nested
    dicts; [None] when a key on the way is absent or a value on the way is
    not a dict. *)
Fixpoint at_path (v : pyval) (path : list string) : option pyval :=
  match path with
  | [] => Some v
  | k :: rest =>
      match v with
      | PDict d =>
          match assoc k d with
          | Some v' => at_path v' rest
          | None => None
          end
      | _ => None
      end
  end.

Definition TYPE_PATH : list string :=
  ["xsi:Event"; "xsi:eventData"; "@xsi1:type"].
Definition CALL_ID_PATH : list string :=
  ["xsi:Event"; "xsi:eventData"; "xsi:call"; "xsi:callId"].
Definition USER_ID_PATH : list string :=
  ["xsi:Event"; "xsi:eventData"; "xsi:call"; "xsi:remoteParty"; "xsi:userId"].
Definition TARGET_ID_PATH : list string :=
  ["xsi:Event"; "xsi:targetId"].

(** The normalized record of an event: each field is the value at its
    path, or the empty default of the classifier when the path is
    absent. *)
Definition details_of (event : pyval) : pyval :=
  PDict [("event_type", default (PDict []) (at_path event TYPE_PATH));
         ("call_id", default (PStr EmptyString) (at_path event CALL_ID_PATH));
         ("user_id", default (PDict []) (at_path event USER_ID_PATH));
         ("target_id", default (PDict []) (at_path event TARGET_ID_PATH))].

(** The line that reports one hang-up attempt. *)
Definition hangup_line (call_id : pyval) (call : Call) : string :=
  match hangup call with
  | Ok _ => ended_line call
  | Raise e => failed_line call_id e
  end.

(** What one hang-up attempt leaves in the trace when its line is
    printed. *)
Definition hangup_report (call_id : pyval) (call : Call) : list effect :=
  [EHangup (call_id_of call); ELog (hangup_line call_id call)].

(** What [handle_event] does with the fields of an actionable event once
    its first two lines are printed. *)
Definition dispatch (lm : LoggerManager) (c : Config) (w : World)
    (self : CallMonitor) (et cid uid tid : pyval) : M unit :=
  if truthy uid && truthy tid
  then handle_internal_call lm self uid tid cid
  else if truthy (if truthy tid then tid else uid)
  then handle_external_call lm c w self tid cid et
  else lnp lm (unhandled_line et).

(** The line that [handle_external_call] prints before it rejects. *)
Definition blocking_line (event_type : pyval) (acct : string)
    (call_id : pyval) : string :=
  if eq_str event_type EVT_RECEIVED
  then inbound_blocking_line acct call_id
  else outbound_blocking_line acct call_id.



(** A sample is fresh when its age does not exceed the timeout. *)
Definition fresh_enough (c : Config) (w : World) (r : TimeLocation) : bool :=
  Qle_bool (now w - tl_last_update r) (inject_Z (GEOLOCATION_TIMEOUT c)).




(** ** A small organization, used to exercise the statements *)

Module Scenario.

Definition xsi_100 : XSI := {|
  calls := Ok [{| call_id_of := "call-7";
                  hangup := Raise (SDKError "404 Not Found") |};
               {| call_id_of := "call-8"; hangup := Ok tt |}];
  profile := Ok (PDict [("user_id", PStr "100")])
|}.

Definition xsi_200 : XSI := {|
  calls := Ok [];
  profile := Ok (PDict [("user_id", PStr "200")])
|}.

Definition person_100 : Person := {|
  person_id := "acct-1";
  person_name := "Uma";
  wxc_numbers :=
    PDict [("phoneNumbers",
            PList [PDict [("primary", PBool true);
                          ("directNumber", PStr "+15550100");
                          ("extension", PStr "100")]])];
  start_xsi := Ok tt;
  xsi := xsi_100
|}.

Definition person_200 : Person := {|
  person_id := "acct-2";
  person_name := "Vic";
  wxc_numbers := PNone;
  start_xsi := Ok tt;
  xsi := xsi_200
|}.


Definition entry_100 : DirectoryEntry := {|
  remote_party_name := "Uma";
  xsi_user_id := PStr "100";
  webex_user_id := "acct-1";
  phone_number := PStr "+15550100";
  extension := PStr "100";
  xsi_instance := Some xsi_100
|}.

Definition entry_200 : DirectoryEntry := {|
  remote_party_name := "Vic";
  xsi_user_id := PStr "200";
  webex_user_id := "acct-2";
  phone_number := PStr "No number available";
  extension := PStr EmptyString;
  xsi_instance := Some xsi_200
|}.

Definition monitor : CallMonitor := {|
  all_people := [person_100; person_200];
  xsi_user_map := <[HStr "200" := entry_200]> (<[HStr "100" := entry_100]> ∅);
  call_to_user_map := ∅
|}.

(** An event of the given kind for the call [call_id], with the given
    target and remote-party ids when present. *)
Definition event_of_call (call_id kind : string)
    (target caller : option string) : pyval :=
  PDict [("xsi:Event",
          PDict (("xsi:eventData",
                  PDict [("@xsi1:type", PStr kind);
                         ("xsi:call",
                          PDict [("xsi:callId", PStr call_id);
                                 ("xsi:remoteParty",
                                  PDict match caller with
                                        | Some id => [("xsi:userId", PStr id)]
                                        | None => []
                                        end)])])
                 :: match target with
                    | Some id => [("xsi:targetId", PStr id)]
                    | None => []
                    end))].

(** An event for call ["call-7"]. *)
Definition call_event : string → option string → option string → pyval :=
  event_of_call "call-7".


(** An event without its type discriminator. *)
Definition untyped_event : pyval :=
  PDict [("xsi:Event",
          PDict [("xsi:eventData", PDict [("xsi:call", PDict [])]);
                 ("xsi:targetId", PStr "100")])].

Definition sample_100 : TimeLocation := {|
  tl_user_id := "acct-1"; tl_session_token := "tok-1";
  tl_time := "2024-03-01T10:00:00Z";
  tl_latitude := 15; tl_longitude := 40; tl_last_update := 970
|}.

Definition store : Database := {|
  user_list := [{| ul_user_id := "acct-1"; ul_session_token := "tok-1" |}];
  allow_list := [{| al_user_id := "acct-1"; al_allow_caller := true |}];
  time_locations := [sample_100]
|}.


Definition empty_store : Database := {|
  user_list := []; allow_list := []; time_locations := []
|}.

(** The sample is exactly [GEOLOCATION_TIMEOUT] seconds old. *)
Definition world_on_time : World := {| session := Connected store; now := 1000 |}.
(** One second later. *)
Definition world_late : World := {| session := Connected store; now := 1001 |}.
Definition world_unknown : World :=
  {| session := Connected empty_store; now := 1000 |}.
Definition world_down : World := {|
  session := Broken "(sqlite3.OperationalError) unable to open database file";
  now := 1000
|}.

(** The logger of the scenarios: rich's console. No text of the scenarios
    opens a tag, so what the two functions of the library return never
    matters; they are the identity on style names and a parser that
    accepts every handler. *)
Definition lm : LoggerManager := rich (λ style_name, style_name) (λ _, None).

(** The text of a traceback, reduced to its last line. *)
Definition format_exc (e : exn) : string :=
  "Traceback (most recent call last): " +:+ str_exn e.

End Scenario.

(** ** The admin token: [AdminToken], its queries, and the expiry checks *)

(** A row of [admin_tokens]; the nullable columns are optional. *)
Record AdminToken : Type := {
  access_token : string;
  expires_in : option Z;
  refresh_token : option string;
  refresh_token_expires_in : option Z;
  token_type : option string;
  scope : option string;
  expires_at : option Q;
  session_token : string
}.

(** The [admin_tokens] table as a session reaches it. *)
Inductive AdminSession : Type :=
| AdminConnected (tokens : list AdminToken)
| AdminBroken (text : string).

(** [read_admin_token]: the first row, as a dict with the same keys. *)
Definition read_admin_token (a : AdminSession) : M (option AdminToken) :=
  match a with
  | AdminBroken text => raise (SQLAlchemyError text)
  | AdminConnected tokens =>
      match tokens with
      | admin_token_entry :: _ => mret (Some admin_token_entry)
      | [] => log "No admin token entry found.";; mret None
      end
  end.

(** [is_token_expired], at clock reading [now]. *)
Definition is_token_expired (now : Q) (token : AdminToken) : M bool :=
  try_except
    (match expires_at token with
     | Some at_ => mret (Qgtb now at_)
     | None => raise (not_comparable (Some now) None)
     end)
    (λ e, log "Error checking token expiration";; mret true).

(** [is_refresh_token_expired]. The dict of [read_admin_token] has no
    ['acquired_at'], so the acquisition time is the clock reading
    [now_default]; [now_check] is the later reading that is compared. *)
Definition is_refresh_token_expired (now_default now_check : Q)
    (token : AdminToken) : M bool :=
  try_except
    (match refresh_token_expires_in token with
     | Some refresh_token_lifespan =>
         let token_acquired_time := now_default in
         let refresh_token_expiry_time :=
           (token_acquired_time + inject_Z refresh_token_lifespan)%Q in
         mret (Qgtb now_check refresh_token_expiry_time)
     | None =>
         raise (TypeError
                  "unsupported operand type(s) for +: 'float' and 'NoneType'")
     end)
    (λ e, log "Error checking refresh token expiration";; mret true).

(** The three successive clock readings of one [check_token]. *)
Record Clock : Type := {
  at_expiry_check : Q;
  at_acquired_default : Q;
  at_refresh_check : Q
}.

(** [check_token] of [call_monitor.py]. *)
Definition check_token (a : AdminSession) (clock : Clock)
    : M (bool * option string) :=
  try_except
    (admin_token_info ← read_admin_token a;
     match admin_token_info with
     | Some token =>
         expired ← is_token_expired (at_expiry_check clock) token;
         if negb expired then
           refresh_expired ←
             is_refresh_token_expired (at_acquired_default clock)
               (at_refresh_check clock) token;
           if negb refresh_expired
           then mret (true, Some (access_token token))
           else mret (false, None)
         else mret (false, None)
     | None => mret (false, None)
     end)
    (λ e, log "Error accessing admin token";; mret (false, None)).

(** ** More vocabulary *)

Definition NAME_PATH : list string :=
  ["xsi:Event"; "xsi:eventData"; "xsi:call"; "xsi:remoteParty"; "xsi:name"].
Definition USER_DN_PATH : list string :=
  ["xsi:Event"; "xsi:eventData"; "xsi:call"; "xsi:remoteParty"; "xsi:userDN"].

Definition is_str (v : pyval) : bool :=
  match v with PStr _ => true | _ => false end.
Definition is_dict (v : pyval) : bool :=
  match v with PDict _ => true | _ => false end.

(** The value that the roster loop reads as [phone_numbers_info]. *)
Definition phone_numbers_of (person : Person) : pyval :=
  match wxc_numbers person with
  | PDict d => default (PList []) (assoc "phoneNumbers" d)
  | _ => PList []
  end.

(** A phone number entry whose ['primary'] flag is truthy. *)
Definition flagged_primary (pn : pyval) : bool :=
  match pn with
  | PDict d => truthy (default (PBool false) (assoc "primary" d))
  | _ => false
  end.

(** The user whom a session token identifies. *)
Definition session_user (s : Session) (token : string) : option string :=
  match s with
  | Connected db =>
      ul_user_id <$>
        List.find (λ r, String.eqb (ul_session_token r) token) (user_list db)
  | Broken _ => None
  end.

(** The request passes the checks of the location-update route. *)
Definition accepted (c : Config) (data : TimeLocationData) (s : Session)
    : bool :=
  negb (String.eqb (sessionToken data) EmptyString)
  && bool_decide (is_Some (session_user s (sessionToken data)))
  && in_country c (latitude data) (longitude data).

(** Every user has at most one allow-list record and at most one stored
    location sample. *)
Definition one_row_per_user (db : Database) : Prop :=
  NoDup (List.map al_user_id (allow_list db))
  ∧ NoDup (List.map tl_user_id (time_locations db)).

(** Two stores that differ at most in the [allow_caller] flags. *)
Definition differ_only_in_allow_caller (db1 db2 : Database) : Prop :=
  user_list db1 = user_list db2
  ∧ time_locations db1 = time_locations db2
  ∧ Forall2 (λ a1 a2, al_user_id a1 = al_user_id a2)
      (allow_list db1) (allow_list db2).

(** The store that an accepted update leaves. *)
Definition stored (db : Database) (t : Q) (uid : string)
    (data : TimeLocationData) : Database :=
  update_time_location_entry
    (match query_allow_list db uid with
     | Some _ => db
     | None => create_allow_list_entry db uid true
     end)
    t uid (sessionToken data) (time data) (latitude data) (longitude data).

(** * Properties *)

#[local] Arguments mbind : simpl never.
#[local] Arguments at_path : simpl never.
#[local] Arguments check_user_permission : simpl never.
#[local] Arguments reject_call : simpl never.
#[local] Arguments handle_internal_call : simpl never.
#[local] Arguments handle_external_call : simpl never.
#[local] Arguments handle_event : simpl never.
#[local] Arguments extract_event_details : simpl never.
#[local] Arguments add_person : simpl never.
#[local] Arguments entry_of : simpl never.
#[local] Arguments lnp : simpl never.
#[local] Arguments console_print : simpl never.

(** ** Computations *)

Section RunLemmas.
Context {A B : Type}.
Implicit Types (m : M A) (f : A → M B) (handler : exn → M A).

Lemma M_ext (m1 m2 : M A) :
  trace m1 = trace m2 → outcome m1 = outcome m2 → m1 = m2.
Proof. destruct m1, m2. simpl. by intros -> ->. Qed.

Lemma outcome_bind m f :
  outcome (m ≫= f) =
  match outcome m with Ok a => outcome (f a) | Raise e => Raise e end.
Proof. unfold mbind, M_bind. by destruct (outcome m). Qed.

Lemma trace_bind m f :
  trace (m ≫= f) =
  trace m ++ match outcome m with Ok a => trace (f a) | Raise _ => [] end.
Proof.
  unfold mbind, M_bind. destruct (outcome m); simpl; [done|].
  by rewrite app_nil_r.
Qed.

Lemma decisions_bind m f :
  decisions (m ≫= f) =
  decisions m ++
  match outcome m with Ok a => decisions (f a) | Raise _ => [] end.
Proof.
  unfold decisions. rewrite trace_bind, List.filter_app.
  by destruct (outcome m).
Qed.

Lemma outcome_try m handler :
  outcome (try_except m handler) =
  match outcome m with Ok a => Ok a | Raise e => outcome (handler e) end.
Proof. unfold try_except. by destruct (outcome m) eqn:E. Qed.

Lemma trace_try m handler :
  trace (try_except m handler) =
  trace m ++
  match outcome m with Ok _ => [] | Raise e => trace (handler e) end.
Proof.
  unfold try_except. destruct (outcome m) eqn:E; simpl; [|done].
  by rewrite app_nil_r.
Qed.

Lemma decisions_try m handler :
  decisions (try_except m handler) =
  decisions m ++
  match outcome m with Ok _ => [] | Raise e => decisions (handler e) end.
Proof.
  unfold decisions. rewrite trace_try, List.filter_app.
  by destruct (outcome m).
Qed.
End RunLemmas.

Lemma pyres_bind_ok {A B} (a : A) (f : A → pyres B) : Ok a ≫= f = f a.
Proof. reflexivity. Qed.

Lemma pyres_bind_Ok {A B} (r : pyres A) (f : A → pyres B) b :
  r ≫= f = Ok b → ∃ a, r = Ok a ∧ f a = Ok b.
Proof. destruct r; simpl; [eauto | discriminate]. Qed.

Lemma not_in_undecided_trace {A} (m : M A) e :
  is_decision e = true → decisions m = [] → e ∉ trace m.
Proof.
  intros He Hnone Hin.
  assert (e ∈ decisions m) as Hdec.
  { apply list_elem_of_In, List.filter_In. split; [|done].
    by apply list_elem_of_In. }
  rewrite Hnone in Hdec. by apply elem_of_nil in Hdec.
Qed.

Lemma decisions_log s : decisions (log s) = [].
Proof. reflexivity. Qed.

Lemma decisions_lift {A} (r : pyres A) : decisions (lift r) = [].
Proof. reflexivity. Qed.

Lemma decisions_ret {A} (a : A) : decisions (mret a) = [].
Proof. reflexivity. Qed.

Lemma outcome_lnp lm text : outcome (lnp lm text) = console_print lm text.
Proof. unfold lnp. rewrite outcome_bind. reflexivity. Qed.

Lemma trace_lnp lm text : trace (lnp lm text) = [ELog text].
Proof. unfold lnp. rewrite trace_bind. reflexivity. Qed.

Lemma decisions_lnp lm text : decisions (lnp lm text) = [].
Proof. unfold decisions. by rewrite trace_lnp. Qed.

(** Push [outcome], [trace] and [decisions] through binds and handlers,
    without looking inside the functions of the monitor. *)
Ltac run :=
  with_strategy opaque
    [check_user_permission reject_call handle_internal_call
     handle_external_call handle_event extract_event_details hangup_all
     add_person add_people monitor_step monitor_loop lnp console_print]
    (repeat (rewrite ?outcome_bind, ?trace_bind, ?decisions_bind,
               ?outcome_try, ?trace_try, ?decisions_try, ?pyres_bind_ok,
               ?decisions_log, ?decisions_lift, ?decisions_ret,
               ?outcome_lnp, ?trace_lnp, ?decisions_lnp;
             simpl)).

(** ** The console *)

Lemma tags_from_plain st position markup :
  contains "[" markup = false →
  match st with Plain _ => True | _ => False end →
  tags_from st position markup = [].
Proof.
  revert st position.
  induction markup as [|c rest IH]; intros st position Hno Hst; [done|].
  simpl in Hno. apply orb_false_iff in Hno as [Hc Hrest].
  destruct st as [backslashes| |]; try done. simpl. rewrite Hc.
  destruct (Ascii.eqb c BACKSLASH); by apply IH.
Qed.

(** rich prints every text that holds no opening bracket. *)
Lemma render_plain normalize check_handler markup :
  contains "[" markup = false →
  console_print (rich normalize check_handler) markup = Ok tt.
Proof.
  intros Hno. unfold rich, console_print, render.
  by rewrite tags_from_plain.
Qed.

(** ** The classifier *)

Lemma py_get_Ok v k d r :
  py_get v k d = Ok r → ∃ kv, v = PDict kv ∧ r = default d (assoc k kv).
Proof. destruct v; simpl; try discriminate. intros [= <-]. eauto. Qed.

Lemma at_path_step v k v' k' rest :
  py_get v k (PDict []) = Ok v' →
  at_path v (k :: k' :: rest) = at_path v' (k' :: rest).
Proof.
  intros (kv & -> & ->)%py_get_Ok. unfold at_path at 1. fold at_path.
  destruct (assoc k kv); reflexivity.
Qed.

Lemma at_path_last v k dflt r :
  py_get v k dflt = Ok r → r = default dflt (at_path v [k]).
Proof.
  intros (kv & -> & ->)%py_get_Ok. unfold at_path.
  destruct (assoc k kv); reflexivity.
Qed.

(** When no step of the classifier raises, the record is [details_of]. *)
Lemma extract_body_spec event r :
  extract_event_details_body event = Ok r → r = details_of event.
Proof.
  unfold extract_event_details_body. intros H.
  repeat (apply pyres_bind_Ok in H as (? & ? & H)).
  injection H as <-.
  repeat match goal with
  | H : ?a = Ok ?x, H' : ?a = Ok ?y |- _ => rewrite H in H'; injection H' as <-
  end.
  unfold details_of, TYPE_PATH, CALL_ID_PATH, USER_ID_PATH, TARGET_ID_PATH.
  repeat match goal with
  | H : py_get ?v ?k (PDict []) = Ok _
    |- context [at_path ?v (?k :: _ :: _)] =>
      rewrite !(at_path_step _ _ _ _ _ H)
  end.
  repeat match goal with
  | H : py_get ?v ?k _ = Ok _ |- context [at_path ?v [?k]] =>
      rewrite <- (at_path_last _ _ _ _ H)
  end.
  reflexivity.
Qed.

Lemma extract_event_details_cases event :
  extract_event_details event = Run [] (Ok (details_of event))
  ∨ extract_event_details event
    = Run [ELog "Error extracting event details"] (Ok (PDict [])).
Proof.
  unfold extract_event_details, try_except, lift. simpl.
  destruct (extract_event_details_body event) eqn:E.
  - left. by rewrite (extract_body_spec _ _ E).
  - by right.
Qed.

(** ** The decision engine *)

Lemma handle_event_unfold lm c w self event t et cid uid tid :
  extract_event_details event
  = Run t (Ok (PDict [("event_type", et); ("call_id", cid);
                      ("user_id", uid); ("target_id", tid)])) →
  handle_event lm c w self event =
    try_except
      (if actionable et then
         lnp lm (processing_line et
                   (PDict [("event_type", et); ("call_id", cid);
                           ("user_id", uid); ("target_id", tid)]));;
         lnp lm (handling_line et cid uid tid);;
         dispatch lm c w self et cid uid tid
       else mret tt)
      (λ e, lnp lm (error_line e)).
Proof.
  intros E. unfold handle_event. rewrite E.
  assert (t = []) as ->.
  { destruct (extract_event_details_cases event) as [E' | E'];
      rewrite E' in E; by injection E. }
  apply M_ext; run; destruct (actionable et); run; try done.
Qed.

Lemma decisions_handle_event lm c w self event t et cid uid tid :
  extract_event_details event
  = Run t (Ok (PDict [("event_type", et); ("call_id", cid);
                      ("user_id", uid); ("target_id", tid)])) →
  decisions (handle_event lm c w self event) =
    if actionable et then
      match console_print lm
              (processing_line et
                 (PDict [("event_type", et); ("call_id", cid);
                         ("user_id", uid); ("target_id", tid)])),
            console_print lm (handling_line et cid uid tid) with
      | Ok _, Ok _ => decisions (dispatch lm c w self et cid uid tid)
      | _, _ => []
      end
    else [].
Proof.
  intros E. rewrite (handle_event_unfold _ _ _ _ _ _ _ _ _ _ E).
  destruct (actionable et); run; [|done].
  destruct (console_print lm (processing_line _ _)) as [[]|]; run; [|done].
  destruct (console_print lm (handling_line _ _ _ _)) as [[]|]; run; [|done].
  destruct (outcome (dispatch _ _ _ _ _ _ _ _)); run; by rewrite app_nil_r.
Qed.

(** [handle_event] returns, unless the console refuses the line with
    which its handler reports an exception. *)
Lemma handle_event_outcome lm c w self event :
  outcome (handle_event lm c w self event) = Ok tt
  ∨ ∃ e0 e,
      console_print lm (error_line e0) = Raise e
      ∧ outcome (handle_event lm c w self event) = Raise e.
Proof.
  destruct (extract_event_details_cases event) as [E | E].
  - unfold details_of in E.
    rewrite (handle_event_unfold _ _ _ _ _ _ _ _ _ _ E). run.
    destruct (outcome (if actionable _ then _ else _)) as [[]|e0];
      [by left|].
    destruct (console_print lm (error_line e0)) as [[]|e] eqn:Hprint;
      [by left|].
    right. by exists e0, e.
  - left. unfold handle_event. rewrite E. by run.
Qed.

Lemma handle_event_unreadable lm c w self event :
  outcome (extract_event_details event) = Ok (PDict []) →
  outcome (handle_event lm c w self event) = Ok tt
  ∧ decisions (handle_event lm c w self event) = [].
Proof.
  intros Hd.
  destruct (extract_event_details_cases event) as [E | E];
    rewrite E in Hd; [discriminate Hd|].
  unfold handle_event. rewrite E. by run.
Qed.

Lemma handle_event_missing_type lm c w self event :
  at_path event TYPE_PATH = None →
  outcome (handle_event lm c w self event) = Ok tt
  ∧ decisions (handle_event lm c w self event) = [].
Proof.
  intros Hty.
  destruct (extract_event_details_cases event) as [E | E].
  - unfold details_of in E.
    rewrite (decisions_handle_event _ _ _ _ _ _ _ _ _ _ E).
    rewrite (handle_event_unfold _ _ _ _ _ _ _ _ _ _ E).
    rewrite Hty. by run.
  - apply handle_event_unreadable. by rewrite E.
Qed.

(** C6. The classifier is total: for every raw event
    [extract_event_details] returns a record and never raises; the record
    is empty, or holds the four fields with the empty default wherever the
    key is absent from the payload, so a field whose key is absent is
    always falsy. An event without its type discriminator leads to no
    verdict: [handle_event] returns normally, queries no permission and
    rejects no call. *)
Theorem extract_event_details_total_and_ignorable :
  (∀ event, ∃ log_lines r,
     extract_event_details event = Run log_lines (Ok r)
     ∧ (r = PDict [] ∨ r = details_of event))
  ∧ (∀ event r field path,
       outcome (extract_event_details event) = Ok r →
       (field, path) ∈ [("event_type", TYPE_PATH); ("call_id", CALL_ID_PATH);
                        ("user_id", USER_ID_PATH);
                        ("target_id", TARGET_ID_PATH)] →
       at_path event path = None →
       ∃ v, py_get r field PNone = Ok v ∧ truthy v = false)
  ∧ (∀ lm c w self event,
       at_path event TYPE_PATH = None →
       outcome (handle_event lm c w self event) = Ok tt
       ∧ decisions (handle_event lm c w self event) = []).
Proof.
  split; [|split].
  - intros event.
    destruct (extract_event_details_cases event) as [-> | ->];
      eexists _, _; eauto.
  - intros event r field path Hr Hin Habsent.
    destruct (extract_event_details_cases event) as [E | E];
      rewrite E in Hr; injection Hr as <-.
    + unfold details_of.
      repeat (apply elem_of_cons in Hin as [[= -> ->] | Hin];
              [rewrite Habsent; by eexists|]).
      by apply elem_of_nil in Hin.
    + repeat (apply elem_of_cons in Hin as [[= -> ->] | Hin];
              [by eexists|]).
      by apply elem_of_nil in Hin.
  - intros lm c w self event. apply handle_event_missing_type.
Qed.

Lemma extract_event_details_total_and_ignorable_witness :
  at_path Scenario.untyped_event TYPE_PATH = None
  ∧ outcome (handle_event Scenario.lm settings Scenario.world_unknown
               Scenario.monitor Scenario.untyped_event) = Ok tt
  ∧ decisions (handle_event Scenario.lm settings Scenario.world_unknown
                 Scenario.monitor Scenario.untyped_event) = [].
Proof.
  split; [reflexivity|].
  apply (proj2 (proj2 extract_event_details_total_and_ignorable)).
  reflexivity.
Defined.

(** C9. Classification is deterministic: classifying the same raw event
    twice in a row yields the same normalized record both times. *)
Theorem extract_event_details_deterministic event :
  ∃ r, outcome (r1 ← extract_event_details event;
                r2 ← extract_event_details event;
                mret (r1, r2)) = Ok (r, r).
Proof.
  destruct (extract_event_details_cases event) as [E | E];
    rewrite E; run; by eexists.
Qed.

(** ** Internal calls *)

Lemma resolve_Some_truthy self id e :
  resolve self id = Ok (Some e) → truthy id = true.
Proof. unfold resolve. by destruct (truthy id). Qed.

Lemma resolve_Some_lookup self id e :
  resolve self id = Ok (Some e) →
  dict_get (xsi_user_map self) id = Ok (Some e).
Proof. unfold resolve. by destruct (truthy id). Qed.

Lemma decisions_handle_internal_call lm self uid tid cid :
  decisions (handle_internal_call lm self uid tid cid) = [].
Proof.
  unfold handle_internal_call. run.
  destruct (resolve self uid) as [[?|]|]; run; try done;
    destruct (resolve self tid) as [[?|]|]; by run.
Qed.

(** C2. For every event whose caller id and target id both resolve in the
    directory, whatever the permission state, [handle_event] calls
    neither [check_user_permission] nor [reject_call] and hangs up no
    call; it returns normally, unless the console refuses the line with
    which its handler reports an exception. *)
Theorem handle_event_both_internal lm c w self event details uid tid e1 e2 :
  outcome (extract_event_details event) = Ok details →
  py_get details "user_id" PNone = Ok uid →
  py_get details "target_id" PNone = Ok tid →
  resolve self uid = Ok (Some e1) →
  resolve self tid = Ok (Some e2) →
  decisions (handle_event lm c w self event) = []
  ∧ (outcome (handle_event lm c w self event) = Ok tt
     ∨ ∃ e0 e,
         console_print lm (error_line e0) = Raise e
         ∧ outcome (handle_event lm c w self event) = Raise e).
Proof.
  intros Hd Hu Ht Hru Hrt. split; [|apply handle_event_outcome].
  destruct (extract_event_details_cases event) as [E | E];
    rewrite E in Hd; simpl in Hd; injection Hd as <-.
  - unfold details_of in E.
    rewrite (decisions_handle_event _ _ _ _ _ _ _ _ _ _ E).
    injection Hu as ->. injection Ht as ->. unfold dispatch.
    rewrite (resolve_Some_truthy _ _ _ Hru), (resolve_Some_truthy _ _ _ Hrt).
    simpl. rewrite decisions_handle_internal_call.
    destruct (actionable _); [|done].
    destruct (console_print lm (processing_line _ _)) as [[]|]; [|done].
    by destruct (console_print lm (handling_line _ _ _ _)) as [[]|].
  - injection Hu as <-. discriminate Hru.
Qed.

Lemma handle_event_both_internal_witness :
  let event := Scenario.call_event EVT_RECEIVED (Some "100") (Some "200") in
  resolve Scenario.monitor (PStr "200") = Ok (Some Scenario.entry_200)
  ∧ resolve Scenario.monitor (PStr "100") = Ok (Some Scenario.entry_100)
  ∧ decisions (handle_event Scenario.lm settings Scenario.world_unknown
                 Scenario.monitor event) = []
  ∧ outcome (handle_event Scenario.lm settings Scenario.world_unknown
               Scenario.monitor event) = Ok tt.
Proof.
  intros event.
  split; [reflexivity|]. split; [reflexivity|].
  split; [|reflexivity].
  apply (handle_event_both_internal Scenario.lm settings
           Scenario.world_unknown Scenario.monitor event (details_of event)
           (PStr "200") (PStr "100") Scenario.entry_200 Scenario.entry_100);
    reflexivity.
Defined.

(** ** The termination actuator *)

(** One turn of the loop of [reject_call]. *)
Lemma hangup_step lm call_id call :
  let step :=
    try_except
      (emit (EHangup (call_id_of call));;
       lift (hangup call);;
       lnp lm (ended_line call))
      (λ e, lnp lm (failed_line call_id e)) in
  decisions step = [EHangup (call_id_of call)]
  ∧ (console_print lm (hangup_line call_id call) = Ok tt →
     outcome step = Ok tt ∧ trace step = hangup_report call_id call)
  ∧ (∀ e, hangup call = Raise e →
          outcome step = console_print lm (failed_line call_id e)
          ∧ trace step
            = [EHangup (call_id_of call); ELog (failed_line call_id e)])
  ∧ (∀ e, outcome step = Raise e →
          ∃ text, console_print lm text = Raise e).
Proof.
  cbv zeta. unfold hangup_report, hangup_line.
  destruct (hangup call) as [[]|e0] eqn:Hhang; run.
  - destruct (console_print lm (ended_line call)) as [[]|e1] eqn:Hend; run;
      repeat split; try done.
    intros e He. by exists (failed_line call_id e1).
  - repeat split; try done; try congruence.
    intros e He. by exists (failed_line call_id e0).
Qed.

Lemma decisions_hangup_all lm call_id active :
  forallb is_hangup (decisions (hangup_all lm call_id active)) = true.
Proof.
  induction active as [|call rest IH]; [done|].
  simpl. rewrite decisions_bind.
  rewrite (proj1 (hangup_step lm call_id call)). simpl.
  set (step := try_except _ _). by destruct (outcome step).
Qed.




Lemma hangup_all_raises lm call_id active e :
  outcome (hangup_all lm call_id active) = Raise e →
  ∃ text, console_print lm text = Raise e.
Proof.
  induction active as [|call rest IH]; [done|].
  simpl. rewrite outcome_bind.
  pose proof (proj2 (proj2 (proj2 (hangup_step lm call_id call)))) as Hstep.
  cbv zeta in Hstep. set (step := try_except _ _) in *.
  destruct (outcome step) as [[]|e'] eqn:Ho; [done|].
  intros [= <-]. by apply Hstep.
Qed.

Lemma decisions_reject_call lm self user_id call_id :
  ∃ hangups,
    decisions (reject_call lm self user_id call_id)
    = EReject user_id call_id :: hangups
    ∧ forallb is_hangup hangups = true.
Proof.
  unfold reject_call. run.
  destruct (dict_get _ _) as [[entry|]|]; run; [|by exists []..].
  destruct (xsi_instance entry) as [x|]; run; [|by exists []].
  destruct (calls x) as [active|]; run; [|by exists []].
  eexists. split; [done|].
  rewrite forallb_app, decisions_hangup_all.
  by destruct (outcome (hangup_all _ _ _)).
Qed.




(** ** The permission oracle *)

Section Oracle.
Local Open Scope Q_scope.

Lemma Qgtb_false x y : Qgtb x y = false ↔ x <= y.
Proof. unfold Qgtb. rewrite negb_false_iff. apply Qle_bool_iff. Qed.

Lemma Qgtb_true x y : Qgtb x y = true ↔ y < x.
Proof.
  unfold Qgtb. rewrite negb_true_iff, <- not_true_iff_false, Qle_bool_iff.
  split; [apply Qnot_le_lt | apply Qlt_not_le].
Qed.

(** [max] over stored rows returns a row, and none is more recent. *)
Lemma max_from_rows best rest :
  ∃ r, r ∈ best :: rest
       ∧ max_from (sample_of best) (List.map sample_of rest)
         = Ok (sample_of r)
       ∧ ∀ r', r' ∈ best :: rest → tl_last_update r' <= tl_last_update r.
Proof.
  revert best. induction rest as [|x rest IH]; intros best; simpl.
  - exists best. split; [apply list_elem_of_here|]. split; [done|].
    intros r' ->%list_elem_of_singleton. apply Qle_refl.
  - destruct (Qgtb (tl_last_update x) (tl_last_update best)) eqn:Hcmp.
    + destruct (IH x) as (r & Hr & -> & Hmax).
      exists r. split; [by apply list_elem_of_further|]. split; [done|].
      intros r' [->| Hr']%elem_of_cons; [|by apply Hmax].
      apply Qgtb_true in Hcmp.
      apply Qle_trans with (tl_last_update x);
        [by apply Qlt_le_weak | apply Hmax, list_elem_of_here].
    + destruct (IH best) as (r & Hr & -> & Hmax).
      exists r. split.
      { apply elem_of_cons in Hr as [->|Hr];
          [apply list_elem_of_here
          | by do 2 apply list_elem_of_further]. }
      split; [done|].
      intros r' [->| [->|Hr']%elem_of_cons]%elem_of_cons.
      * apply Hmax, list_elem_of_here.
      * apply Qgtb_false in Hcmp.
        apply Qle_trans with (tl_last_update best);
          [done | apply Hmax, list_elem_of_here].
      * by apply Hmax, list_elem_of_further.
Qed.

Lemma query_allow_list_user_id db uid a :
  query_allow_list db uid = Some a → al_user_id a = uid.
Proof.
  unfold query_allow_list. intros [_ H]%List.find_some.
  by apply String.eqb_eq in H.
Qed.

(** What the oracle does when the storage answers. *)
Lemma check_user_permission_connected c w uid db :
  session w = Connected db →
  decisions (check_user_permission c w uid) = [EQuery uid]
  ∧ match query_allow_list db uid with
    | None => outcome (check_user_permission c w uid) = Ok false
    | Some _ =>
        match time_locations_of db uid with
        | [] => outcome (check_user_permission c w uid) = Ok false
        | _ :: _ =>
            ∃ r, r ∈ time_locations_of db uid
              ∧ (∀ r', r' ∈ time_locations_of db uid →
                       tl_last_update r' <= tl_last_update r)
              ∧ outcome (check_user_permission c w uid)
                = Ok (fresh_enough c w r)
        end
    end.
Proof.
  intros Hs. unfold check_user_permission, get_allow_list_entry_by_user_id.
  rewrite Hs.
  destruct (query_allow_list db uid) as [a|] eqn:Hq; run; [|done].
  rewrite (query_allow_list_user_id _ _ _ Hq).
  destruct (time_locations_of db uid) as [|r0 rows]; run; [done|].
  destruct (max_from_rows r0 rows) as (r & Hin & -> & Hmax). run.
  unfold is_geolocation_timeout, fresh_enough, Qgtb. simpl.
  split.
  - by destruct (Qle_bool _ _).
  - exists r. split; [done|]. split; [done|]. by destruct (Qle_bool _ _).
Qed.

Lemma check_user_permission_broken c w uid text :
  session w = Broken text →
  check_user_permission c w uid
  = Run [EQuery uid] (Raise (SQLAlchemyError text)).
Proof.
  intros Hs. unfold check_user_permission, get_allow_list_entry_by_user_id.
  by rewrite Hs.
Qed.

Lemma decisions_check_user_permission c w uid :
  decisions (check_user_permission c w uid) = [EQuery uid].
Proof.
  destruct (session w) as [db|text] eqn:Hs.
  - by destruct (check_user_permission_connected c w uid db Hs).
  - by rewrite (check_user_permission_broken _ _ _ text).
Qed.

(** C3, as amended. The oracle is fail-closed for missing and expired
    data: while the storage answers it never raises, and it returns
    false for an account with no allow-list record, with no stored
    sample, or whose samples are all older than the timeout. It has no
    handler for storage errors: when the query fails the exception
    leaves [check_user_permission]. *)
Theorem check_user_permission_fail_closed c w uid :
  (∀ db, session w = Connected db →
     query_allow_list db uid = None
     ∨ time_locations_of db uid = []
     ∨ (∀ r, r ∈ time_locations_of db uid →
             inject_Z (GEOLOCATION_TIMEOUT c) < now w - tl_last_update r) →
     outcome (check_user_permission c w uid) = Ok false)
  ∧ (∀ db, session w = Connected db →
       ∃ permitted, outcome (check_user_permission c w uid) = Ok permitted)
  ∧ (∀ text, session w = Broken text →
       outcome (check_user_permission c w uid)
       = Raise (SQLAlchemyError text)).
Proof.
  split; [|split].
  - intros db Hs Hfail.
    destruct (check_user_permission_connected c w uid db Hs) as [_ H].
    destruct (query_allow_list db uid) as [a|]; [|done].
    destruct (time_locations_of db uid) as [|r0 rows] eqn:Hrows; [done|].
    destruct H as (r & Hin & _ & ->).
    destruct Hfail as [? | [? | Hold]]; [done..|].
    f_equal. unfold fresh_enough.
    apply not_true_iff_false. rewrite Qle_bool_iff.
    apply Qlt_not_le, Hold, Hin.
  - intros db Hs.
    destruct (check_user_permission_connected c w uid db Hs) as [_ H].
    destruct (query_allow_list db uid) as [a|]; [|by eauto].
    destruct (time_locations_of db uid) as [|r0 rows]; [by eauto|].
    destruct H as (r & _ & _ & ->). eauto.
  - intros text Hs. by rewrite (check_user_permission_broken _ _ _ text).
Qed.

Lemma check_user_permission_fail_closed_witness :
  session Scenario.world_unknown = Connected Scenario.empty_store
  ∧ query_allow_list Scenario.empty_store "acct-1" = None
  ∧ outcome (check_user_permission settings Scenario.world_unknown "acct-1")
    = Ok false.
Proof.
  split; [reflexivity|]. split; [reflexivity|].
  apply (proj1 (check_user_permission_fail_closed settings
                  Scenario.world_unknown "acct-1")
           Scenario.empty_store);
    [reflexivity | left; reflexivity].
Defined.

(** C3, as stated, fails: a storage error is not turned into [false],
    it is raised. *)
Lemma check_user_permission_storage_error_raises :
  session Scenario.world_down
  = Broken "(sqlite3.OperationalError) unable to open database file"
  ∧ outcome (check_user_permission settings Scenario.world_down "acct-1")
    = Raise (SQLAlchemyError
               "(sqlite3.OperationalError) unable to open database file")
  ∧ outcome (check_user_permission settings Scenario.world_down "acct-1")
    ≠ Ok false.
Proof. split; [reflexivity|]. split; [reflexivity|]. discriminate. Qed.

(** C4. The staleness boundary is inclusive. For an allow-listed user
    whose freshest stored sample is [latest]: when its age equals the
    timeout the user is permitted, when it is the timeout plus one, or
    anything above the timeout, the user is not permitted. *)
Theorem staleness_boundary_inclusive c w uid db a latest :
  session w = Connected db →
  query_allow_list db uid = Some a →
  latest ∈ time_locations_of db uid →
  (∀ r, r ∈ time_locations_of db uid →
        tl_last_update r <= tl_last_update latest) →
  (now w - tl_last_update latest == inject_Z (GEOLOCATION_TIMEOUT c) →
     outcome (check_user_permission c w uid) = Ok true)
  ∧ (now w - tl_last_update latest
     == inject_Z (GEOLOCATION_TIMEOUT c) + 1 →
     outcome (check_user_permission c w uid) = Ok false)
  ∧ (inject_Z (GEOLOCATION_TIMEOUT c) < now w - tl_last_update latest →
     outcome (check_user_permission c w uid) = Ok false).
Proof.
  intros Hs Hq Hin Hmax.
  destruct (check_user_permission_connected c w uid db Hs) as [_ H].
  rewrite Hq in H.
  destruct (time_locations_of db uid) as [|r0 rows] eqn:Hrows;
    [by apply elem_of_nil in Hin|].
  destruct H as (r & Hr & Hrmax & ->).
  assert (tl_last_update r == tl_last_update latest) as Heq.
  { apply Qle_antisym; [by apply Hmax | by apply Hrmax]. }
  unfold fresh_enough. rewrite Heq.
  split; [|split]; intros Hage; f_equal.
  - apply Qle_bool_iff. rewrite Hage. apply Qle_refl.
  - apply not_true_iff_false. rewrite Qle_bool_iff, Hage. lra.
  - apply not_true_iff_false. rewrite Qle_bool_iff. lra.
Qed.
End Oracle.

Lemma staleness_boundary_inclusive_witness :
  (now Scenario.world_on_time - tl_last_update Scenario.sample_100
   == inject_Z (GEOLOCATION_TIMEOUT settings))%Q
  ∧ outcome (check_user_permission settings Scenario.world_on_time "acct-1")
    = Ok true.
Proof.
  split; [reflexivity|].
  apply (staleness_boundary_inclusive settings Scenario.world_on_time
           "acct-1" Scenario.store
           {| al_user_id := "acct-1"; al_allow_caller := true |}
           Scenario.sample_100);
    [reflexivity | reflexivity | apply list_elem_of_here | | reflexivity].
  intros r Hr. apply list_elem_of_singleton in Hr. rewrite Hr.
  apply Qle_refl.
Defined.

(** ** Coordinates play no part in admission *)






(** ** Calls with an external leg *)

Lemma decisions_handle_external_call lm c w self tid cid et entry :
  actionable et = true →
  dict_get (xsi_user_map self) tid = Ok (Some entry) →
  String.eqb (webex_user_id entry) EmptyString = false →
  decisions (handle_external_call lm c w self tid cid et) =
    EQuery (webex_user_id entry) ::
    match outcome (check_user_permission c w (webex_user_id entry)),
          console_print lm (blocking_line et (webex_user_id entry) cid) with
    | Ok false, Ok _ => decisions (reject_call lm self tid cid)
    | _, _ => []
    end.
Proof.
  intros Het Hentry Hacct. unfold handle_external_call, blocking_line. run.
  rewrite Hentry. run. rewrite Hacct. simpl.
  unfold actionable in Het.
  destruct (eq_str et EVT_RECEIVED); simpl in *.
  - rewrite decisions_bind, decisions_check_user_permission. simpl.
    by destruct (outcome _) as [[]|]; run.
  - rewrite Het. simpl.
    rewrite decisions_bind, decisions_check_user_permission. simpl.
    by destruct (outcome _) as [[]|]; run.
Qed.

(** C1, as amended. For every actionable event whose target id resolves
    in the directory to an entry with a non-empty account identity and
    whose caller id is absent or empty, and whose first two lines the
    console prints, [handle_event] queries the oracle for the target's
    account identity, whatever the oracle then does. When the oracle
    answers not-permitted and the console prints the line that announces
    the blocking, it calls [reject_call] with the target's internal id
    and the event's call id, and does nothing but hang up that user's
    calls afterwards; when the oracle answers permitted, or raises, or
    the console refuses that line, the query is all it does. *)
Theorem handle_event_target_only
    lm c w self event details et cid uid tid entry :
  outcome (extract_event_details event) = Ok details →
  py_get details "event_type" PNone = Ok et →
  py_get details "call_id" PNone = Ok cid →
  py_get details "user_id" PNone = Ok uid →
  py_get details "target_id" PNone = Ok tid →
  actionable et = true →
  truthy uid = false →
  resolve self tid = Ok (Some entry) →
  String.eqb (webex_user_id entry) EmptyString = false →
  console_print lm (processing_line et details) = Ok tt →
  console_print lm (handling_line et cid uid tid) = Ok tt →
  (∃ rest,
     decisions (handle_event lm c w self event)
     = EQuery (webex_user_id entry) :: rest)
  ∧ (outcome (check_user_permission c w (webex_user_id entry)) = Ok false →
     console_print lm (blocking_line et (webex_user_id entry) cid) = Ok tt →
     ∃ hangups,
       decisions (handle_event lm c w self event)
       = EQuery (webex_user_id entry) :: EReject tid cid :: hangups
       ∧ forallb is_hangup hangups = true)
  ∧ (outcome (check_user_permission c w (webex_user_id entry)) ≠ Ok false
     ∨ console_print lm (blocking_line et (webex_user_id entry) cid) ≠ Ok tt →
     decisions (handle_event lm c w self event)
     = [EQuery (webex_user_id entry)]).
Proof.
  intros Hd Het Hcid Hu Ht Hact Hfalsy Hres Hacct Hline1 Hline2.
  destruct (extract_event_details_cases event) as [E | E];
    rewrite E in Hd; simpl in Hd; injection Hd as <-.
  2: { injection Ht as <-. discriminate Hres. }
  injection Het as <-. injection Hcid as <-.
  injection Hu as <-. injection Ht as <-.
  unfold details_of in E, Hline1.
  rewrite (decisions_handle_event _ _ _ _ _ _ _ _ _ _ E).
  rewrite Hact, Hline1, Hline2. unfold dispatch.
  rewrite Hfalsy, !(resolve_Some_truthy _ _ _ Hres). cbn [andb].
  rewrite (decisions_handle_external_call _ _ _ _ _ _ _ entry);
    [|done|by apply resolve_Some_lookup|done].
  split; [by eexists|]. split.
  - intros -> ->.
    destruct (decisions_reject_call lm self
                (default (PDict []) (at_path event TARGET_ID_PATH))
                (default (PStr EmptyString) (at_path event CALL_ID_PATH)))
      as (hs & -> & Hhs).
    by exists hs.
  - intros Hnot.
    destruct (outcome (check_user_permission _ _ _)) as [[]|]; try done.
    destruct (console_print lm (blocking_line _ _ _)) as [[]|]; [|done].
    by destruct Hnot.
Qed.

Lemma handle_event_target_only_witness :
  let event := Scenario.call_event EVT_RECEIVED (Some "100") None in
  resolve Scenario.monitor (PStr "100") = Ok (Some Scenario.entry_100)
  ∧ outcome (check_user_permission settings Scenario.world_late "acct-1")
    = Ok false
  ∧ ∃ hangups,
      decisions (handle_event Scenario.lm settings Scenario.world_late
                   Scenario.monitor event)
      = EQuery "acct-1" :: EReject (PStr "100") (PStr "call-7") :: hangups
      ∧ forallb is_hangup hangups = true.
Proof.
  intros event.
  split; [reflexivity|]. split; [reflexivity|].
  apply (handle_event_target_only Scenario.lm settings Scenario.world_late
           Scenario.monitor event (details_of event)
           (PStr EVT_RECEIVED) (PStr "call-7") (PDict []) (PStr "100")
           Scenario.entry_100);
    reflexivity.
Defined.

(** C1, as stated, fails. The target ["100"] resolves, the caller ["999"]
    is present in the event but resolves to nothing, so exactly one party
    resolves, and the oracle would answer not-permitted; yet the monitor
    sees two ids, takes the call for internal and neither queries the
    oracle nor rejects the call. *)
Lemma handle_event_unresolved_caller_not_queried :
  let event := Scenario.call_event EVT_RECEIVED (Some "100") (Some "999") in
  outcome (extract_event_details event)
  = Ok (PDict [("event_type", PStr EVT_RECEIVED); ("call_id", PStr "call-7");
               ("user_id", PStr "999"); ("target_id", PStr "100")])
  ∧ resolve Scenario.monitor (PStr "100") = Ok (Some Scenario.entry_100)
  ∧ resolve Scenario.monitor (PStr "999") = Ok None
  ∧ outcome (check_user_permission settings Scenario.world_late "acct-1")
    = Ok false
  ∧ handle_event Scenario.lm settings Scenario.world_late Scenario.monitor
      event
    = Run [ELog "Processing xsi:CallReceivedEvent. Details: {'event_type': 'xsi:CallReceivedEvent', 'call_id': 'call-7', 'user_id': '999', 'target_id': '100'}";
           ELog "Handling call event. Type: xsi:CallReceivedEvent, Call ID: call-7, Caller: 999, Call Receiver: 100"]
        (Ok tt)
  ∧ decisions (handle_event Scenario.lm settings Scenario.world_late
                 Scenario.monitor event) = []
  ∧ (EQuery "acct-1"
     ∉ trace (handle_event Scenario.lm settings Scenario.world_late
                Scenario.monitor event))
  ∧ (EReject (PStr "100") (PStr "call-7")
     ∉ trace (handle_event Scenario.lm settings Scenario.world_late
                Scenario.monitor event)).
Proof.
  intros event. repeat (split; [reflexivity|]).
  split; by apply not_in_undecided_trace.
Qed.

(** When the caller is the only party of the event, the monitor hands the
    absent target id, not the caller id, to [handle_external_call]: the
    directory lookup of the empty default raises, the handler of
    [handle_event] logs the error, and no decision is taken. *)
Example handle_event_caller_only_takes_no_decision :
  let event := Scenario.call_event EVT_ORIGINATED None (Some "100") in
  resolve Scenario.monitor (PStr "100") = Ok (Some Scenario.entry_100)
  ∧ handle_event Scenario.lm settings Scenario.world_late Scenario.monitor
      event
    = Run [ELog "Processing xsi:CallOriginatedEvent. Details: {'event_type': 'xsi:CallOriginatedEvent', 'call_id': 'call-7', 'user_id': '100', 'target_id': {}}";
           ELog "Handling call event. Type: xsi:CallOriginatedEvent, Call ID: call-7, Caller: 100, Call Receiver: {}";
           ELog "Error handling call event unhashable type: 'dict'"] (Ok tt).
Proof. split; reflexivity. Qed.

(** A storage error during the oracle's query is caught by [handle_event]:
    the query is made, nothing is rejected. *)
Example handle_event_storage_error_rejects_nothing :
  decisions (handle_event Scenario.lm settings Scenario.world_down
               Scenario.monitor
               (Scenario.call_event EVT_RECEIVED (Some "100") None))
  = [EQuery "acct-1"].
Proof. reflexivity. Qed.


(** ** The ingestion loop *)

Section MonitorLoop.
Variable lm : LoggerManager.
Variable format_exc : exn → string.

Lemma monitor_step_falsy handle event :
  truthy event = false →
  monitor_step lm format_exc handle event = mret tt.
Proof. intros Hev. unfold monitor_step. rewrite Hev. by apply M_ext. Qed.




End MonitorLoop.




(** A handler that raises on one event: the loop reports the failure and
    goes on with the next event. *)
Example monitor_loop_survives_raising_handler :
  let handle := λ (w : World) (event : pyval),
    if eq_str event "bad" then raise (ValueError "bad event")
    else emit (EHangup "seen") in
  monitor_loop Scenario.lm Scenario.format_exc handle
    [(Scenario.world_late, PStr "a"); (Scenario.world_late, PStr "bad");
     (Scenario.world_late, PStr "b")]
  = Run [EHangup "seen"; ESleep;
         ELog "Traceback (most recent call last): bad event";
         ELog "Error in the monitoring loop: bad event";
         EHangup "seen"; ESleep] (Ok tt).
Proof. reflexivity. Qed.

(** ** Building the directory *)

Lemma add_person_ok person m ke :
  start_xsi person = Ok tt → entry_of person = Ok ke →
  add_person person m
  = Run [EStartXsi (person_id person)] (Ok (<[ke.1 := ke.2]> m)).
Proof. intros Hs He. unfold add_person. by rewrite Hs, He. Qed.

Lemma add_person_start_fails person m e :
  start_xsi person = Raise e →
  add_person person m = Run [EStartXsi (person_id person)] (Raise e).
Proof. intros Hs. unfold add_person. by rewrite Hs. Qed.






(** With a roster whose members all answer, the build yields the
    directory of the scenario. *)
Example init_builds_scenario_directory :
  outcome (init [Scenario.person_100; Scenario.person_200])
  = Ok Scenario.monitor.
Proof. reflexivity. Qed.

(** * Further properties *)

(** ** More on the decision engine *)

Lemma decisions_handle_external_call_cases lm c w self tid cid et :
  decisions (handle_external_call lm c w self tid cid et) = []
  ∨ ∃ entry,
      dict_get (xsi_user_map self) tid = Ok (Some entry)
      ∧ actionable et = true
      ∧ String.eqb (webex_user_id entry) EmptyString = false
      ∧ decisions (handle_external_call lm c w self tid cid et) =
          EQuery (webex_user_id entry) ::
          match outcome (check_user_permission c w (webex_user_id entry)),
                console_print lm (blocking_line et (webex_user_id entry) cid)
          with
          | Ok false, Ok _ => decisions (reject_call lm self tid cid)
          | _, _ => []
          end.
Proof.
  destruct (dict_get (xsi_user_map self) tid) as [[entry|]|] eqn:Hentry.
  - destruct (actionable et) eqn:Het.
    + destruct (String.eqb (webex_user_id entry) EmptyString) eqn:Hacct.
      * left. unfold handle_external_call. run. rewrite Hentry. run.
        rewrite Hacct, !andb_false_r. by run.
      * right. exists entry. repeat (split; [done|]).
        by apply decisions_handle_external_call.
    + left. unfold handle_external_call. run. rewrite Hentry. run.
      unfold actionable in Het. apply orb_false_iff in Het as [-> ->].
      by run.
  - left. unfold handle_external_call. run. rewrite Hentry. by run.
  - left. unfold handle_external_call. run. rewrite Hentry. by run.
Qed.

(** The fields of the record that [handle_event] works on. *)
Lemma decisions_handle_event_cases lm c w self event :
  decisions (handle_event lm c w self event) = []
  ∨ ∃ et cid uid tid,
      at_path event TYPE_PATH = Some et
      ∧ actionable et = true
      ∧ cid = default (PStr EmptyString) (at_path event CALL_ID_PATH)
      ∧ uid = default (PDict []) (at_path event USER_ID_PATH)
      ∧ tid = default (PDict []) (at_path event TARGET_ID_PATH)
      ∧ truthy uid && truthy tid = false
      ∧ decisions (handle_event lm c w self event)
        = decisions (handle_external_call lm c w self tid cid et).
Proof.
  destruct (extract_event_details_cases event) as [E | E].
  2: { left. unfold handle_event. rewrite E. by run. }
  unfold details_of in E.
  rewrite (decisions_handle_event _ _ _ _ _ _ _ _ _ _ E).
  destruct (at_path event TYPE_PATH) as [et|] eqn:Hty; [|by left].
  simpl. destruct (actionable et) eqn:Het; [|by left].
  destruct (console_print lm (processing_line _ _)) as [[]|]; [|by left].
  destruct (console_print lm (handling_line _ _ _ _)) as [[]|]; [|by left].
  unfold dispatch.
  destruct (truthy (default (PDict []) (at_path event USER_ID_PATH))
            && truthy (default (PDict []) (at_path event TARGET_ID_PATH)))
    eqn:Hboth.
  { left. apply decisions_handle_internal_call. }
  destruct (truthy (if truthy _ then _ else _));
    [|left; apply decisions_lnp].
  right. eexists et, _, _, _. by repeat (split; [done|]).
Qed.

(** X1. A call is never rejected without a denial. Whatever the event,
    [handle_event] takes no decision at all, or it queries the oracle
    once, for the account of the directory entry filed under the event's
    target id; it calls [reject_call], once and for that target id and
    the event's call id, exactly when the oracle answered not-permitted
    and the console printed the line that announces the blocking, and
    hang-ups only follow that call. *)
Theorem handle_event_rejects_only_after_denial lm c w self event :
  decisions (handle_event lm c w self event) = []
  ∨ ∃ entry et,
      let tid := default (PDict []) (at_path event TARGET_ID_PATH) in
      let cid := default (PStr EmptyString) (at_path event CALL_ID_PATH) in
      let acct := webex_user_id entry in
      dict_get (xsi_user_map self) tid = Ok (Some entry)
      ∧ at_path event TYPE_PATH = Some et
      ∧ (((outcome (check_user_permission c w acct) ≠ Ok false
           ∨ console_print lm (blocking_line et acct cid) ≠ Ok tt)
          ∧ decisions (handle_event lm c w self event) = [EQuery acct])
         ∨ (outcome (check_user_permission c w acct) = Ok false
            ∧ console_print lm (blocking_line et acct cid) = Ok tt
            ∧ ∃ hangups,
                decisions (handle_event lm c w self event)
                = EQuery acct :: EReject tid cid :: hangups
                ∧ forallb is_hangup hangups = true)).
Proof.
  destruct (decisions_handle_event_cases lm c w self event)
    as [? | (et & cid & uid & tid & Hty & _ & -> & -> & -> & _ & ->)];
    [by left|].
  destruct (decisions_handle_external_call_cases lm c w self
              (default (PDict []) (at_path event TARGET_ID_PATH))
              (default (PStr EmptyString) (at_path event CALL_ID_PATH)) et)
    as [? | (entry & Hentry & _ & _ & ->)]; [by left|].
  right. exists entry, et. cbv zeta. split; [done|]. split; [done|].
  destruct (outcome (check_user_permission c w (webex_user_id entry)))
    as [[]|] eqn:Hp.
  - left. split; [left; discriminate | reflexivity].
  - destruct (console_print lm (blocking_line _ _ _)) as [[]|] eqn:Hline.
    + right. split; [done|]. split; [done|].
      destruct (decisions_reject_call lm self
                  (default (PDict []) (at_path event TARGET_ID_PATH))
                  (default (PStr EmptyString) (at_path event CALL_ID_PATH)))
        as (hs & -> & Hhs).
      by exists hs.
    + left. split; [right; discriminate | reflexivity].
  - left. split; [left; discriminate | reflexivity].
Qed.

(** X2. Only call events whose payload holds a target id are decided.
    Whenever [handle_event] queries the oracle or rejects a call, the
    event has one of the two actionable kinds, its payload has the
    target-id key, the directory has an entry filed under the value of
    that key (which may be [None], when the directory has an entry filed
    under [None]), and the caller id and the target id are not both
    truthy. So an event whose payload has no target-id key is never
    decided, whatever its caller id. *)
Theorem handle_event_decides_only_targeted_call_events lm c w self event :
  decisions (handle_event lm c w self event) ≠ [] →
  (∃ et, at_path event TYPE_PATH = Some et ∧ actionable et = true)
  ∧ (∃ tid entry,
       at_path event TARGET_ID_PATH = Some tid
       ∧ dict_get (xsi_user_map self) tid = Ok (Some entry))
  ∧ truthy (default (PDict []) (at_path event USER_ID_PATH))
    && truthy (default (PDict []) (at_path event TARGET_ID_PATH)) = false.
Proof.
  intros Hdec.
  destruct (decisions_handle_event_cases lm c w self event)
    as [? | (et & cid & uid & tid & Hty & Het & -> & -> & -> & Hboth & E)];
    [done|].
  split; [by exists et|]. split; [|done].
  rewrite E in Hdec.
  destruct (decisions_handle_external_call_cases lm c w self
              (default (PDict []) (at_path event TARGET_ID_PATH))
              (default (PStr EmptyString) (at_path event CALL_ID_PATH)) et)
    as [? | (entry & Hentry & _)]; [done|].
  destruct (at_path event TARGET_ID_PATH) as [tid|]; [by exists tid, entry|].
  discriminate Hentry.
Qed.

Lemma handle_event_decides_only_targeted_call_events_witness :
  let event := Scenario.call_event EVT_RECEIVED (Some "100") None in
  decisions (handle_event Scenario.lm settings Scenario.world_late
               Scenario.monitor event) ≠ []
  ∧ at_path event TARGET_ID_PATH = Some (PStr "100")
  ∧ ∃ tid entry,
      at_path event TARGET_ID_PATH = Some tid
      ∧ dict_get (xsi_user_map Scenario.monitor) tid = Ok (Some entry).
Proof.
  intros event.
  assert (decisions (handle_event Scenario.lm settings Scenario.world_late
                       Scenario.monitor event) ≠ []) as Hdec.
  { vm_compute. discriminate. }
  split; [exact Hdec|]. split; [reflexivity|].
  exact (proj1 (proj2 (handle_event_decides_only_targeted_call_events
                         Scenario.lm settings Scenario.world_late
                         Scenario.monitor event Hdec))).
Defined.

(** A null target id is a target id: with a directory that has an entry
    filed under [None] (a member whose profile has no user id), an event
    with a null target and a caller is decided for that entry. *)
Example handle_event_null_target_is_decided :
  let unnamed := {|
    all_people := []; call_to_user_map := ∅;
    xsi_user_map := <[HNone := Scenario.entry_100]> ∅ |} in
  let event :=
    PDict [("xsi:Event",
            PDict [("xsi:eventData",
                    PDict [("@xsi1:type", PStr EVT_RECEIVED);
                           ("xsi:call",
                            PDict [("xsi:callId", PStr "call-7");
                                   ("xsi:remoteParty",
                                    PDict [("xsi:userId", PStr "200")])])]);
                   ("xsi:targetId", PNone)])] in
  decisions (handle_event Scenario.lm settings Scenario.world_late unnamed
               event)
  = [EQuery "acct-1"; EReject PNone (PStr "call-7");
     EHangup "call-7"; EHangup "call-8"].
Proof. reflexivity. Qed.

(** ** When classification gives up *)

Lemma py_lower_Ok v r : py_lower v = Ok r → is_str v = true.
Proof. by destruct v. Qed.

Lemma py_get_Ok_dict v k d r : py_get v k d = Ok r → is_dict v = true.
Proof. by destruct v. Qed.

(** When no step raises, the remote party's name is a string and its
    [xsi:userDN] is a dict, wherever they are present. *)
Lemma extract_body_Ok_shape event r :
  extract_event_details_body event = Ok r →
  is_str (default (PStr EmptyString) (at_path event NAME_PATH)) = true
  ∧ is_dict (default (PDict []) (at_path event USER_DN_PATH)) = true.
Proof.
  unfold extract_event_details_body. intros H.
  repeat (apply pyres_bind_Ok in H as (? & ? & H)).
  repeat match goal with
  | H : ?a = Ok ?x, H' : ?a = Ok ?y |- _ => rewrite H in H'; injection H' as <-
  end.
  unfold NAME_PATH, USER_DN_PATH.
  repeat match goal with
  | H : py_get ?v ?k (PDict []) = Ok _
    |- context [at_path ?v (?k :: _ :: _)] =>
      rewrite !(at_path_step _ _ _ _ _ H)
  end.
  repeat match goal with
  | H : py_get ?v ?k _ = Ok _ |- context [at_path ?v [?k]] =>
      rewrite <- (at_path_last _ _ _ _ H)
  end.
  split; [by eapply py_lower_Ok | by eapply py_get_Ok_dict].
Qed.

(** X3. The classifier gives up on the whole event for a field that it
    does not even report: when the remote party's name is present but is
    not a string (a null name, for instance), or its [xsi:userDN] is
    present but is not a dict, the record is empty, and [handle_event]
    takes no decision, whatever the kind and the ids of the event. *)
Theorem malformed_remote_party_drops_event lm c w self event :
  is_str (default (PStr EmptyString) (at_path event NAME_PATH)) = false
  ∨ is_dict (default (PDict []) (at_path event USER_DN_PATH)) = false →
  extract_event_details event
  = Run [ELog "Error extracting event details"] (Ok (PDict []))
  ∧ handle_event lm c w self event
    = Run [ELog "Error extracting event details";
           ELog "Event details could not be extracted."] (Ok tt).
Proof.
  intros Hbad.
  assert (extract_event_details event
          = Run [ELog "Error extracting event details"] (Ok (PDict [])))
    as E.
  { unfold extract_event_details, try_except, lift. simpl.
    destruct (extract_event_details_body event) eqn:Hbody; [|done].
    destruct (extract_body_Ok_shape _ _ Hbody) as [Hname Hdn].
    destruct Hbad as [Hbad | Hbad]; congruence. }
  split; [done|]. unfold handle_event. rewrite E. by apply M_ext.
Qed.

Lemma malformed_remote_party_drops_event_witness :
  let event :=
    PDict [("xsi:Event",
            PDict [("xsi:eventData",
                    PDict [("@xsi1:type", PStr EVT_RECEIVED);
                           ("xsi:call",
                            PDict [("xsi:callId", PStr "call-7");
                                   ("xsi:remoteParty",
                                    PDict [("xsi:name", PNone)])])]);
                   ("xsi:targetId", PStr "100")])] in
  is_str (default (PStr EmptyString) (at_path event NAME_PATH)) = false
  ∧ decisions (handle_event Scenario.lm settings Scenario.world_late
                 Scenario.monitor event) = [].
Proof.
  intros event. split; [reflexivity|].
  destruct (malformed_remote_party_drops_event Scenario.lm settings
              Scenario.world_late Scenario.monitor event) as [_ ->];
    [left; reflexivity | reflexivity].
Defined.

(** ** More on the actuator *)

Lemma reject_call_raises lm self user_id call_id e :
  outcome (reject_call lm self user_id call_id) = Raise e →
  to_key user_id = Raise e ∨ ∃ text, console_print lm text = Raise e.
Proof.
  unfold reject_call, dict_get. run.
  destruct (to_key user_id) as [key|e0]; run; [|intros [= <-]; by left].
  intros Ho. right.
  destruct (xsi_user_map self !! key) as [entry|]; run; [|done].
  destruct (xsi_instance entry) as [x|]; run.
  - revert Ho. run.
    destruct (calls x) as [active|e0]; run.
    + destruct (outcome (hangup_all lm call_id active)) as [[]|e1] eqn:Hall;
        [done|].
      intros Ho. by exists (failed_line call_id e1).
    + intros Ho. by exists (failed_line call_id e0).
  - revert Ho. run. intros Ho. by exists (no_active_call_line call_id).
Qed.

(** X4. The ways [reject_call] can end. For an unhashable user id it
    raises the [TypeError] of the lookup before anything is attempted.
    For a user who is not in the directory it returns normally after one
    line in the log file, without any hang-up. When the platform fails to
    list the user's calls it attempts no hang-up and ends as the console
    does on the one line that reports the failure. Any exception that
    leaves [reject_call] is the [TypeError] of the lookup or one that the
    console raised on a line. *)
Theorem reject_call_failure_modes lm self user_id call_id :
  (∀ e, to_key user_id = Raise e →
     reject_call lm self user_id call_id
     = Run [EReject user_id call_id] (Raise e))
  ∧ (∀ key, to_key user_id = Ok key → xsi_user_map self !! key = None →
       reject_call lm self user_id call_id
       = Run [EReject user_id call_id;
              ELog "No XSI instance found for User ID"] (Ok tt))
  ∧ (∀ key entry x e,
       to_key user_id = Ok key → xsi_user_map self !! key = Some entry →
       xsi_instance entry = Some x → calls x = Raise e →
       trace (reject_call lm self user_id call_id)
       = [EReject user_id call_id; ELog (failed_line call_id e)]
       ∧ outcome (reject_call lm self user_id call_id)
         = console_print lm (failed_line call_id e))
  ∧ (∀ e, outcome (reject_call lm self user_id call_id) = Raise e →
       to_key user_id = Raise e
       ∨ ∃ text, console_print lm text = Raise e).
Proof.
  split; [|split; [|split]].
  - intros e He. unfold reject_call, dict_get. rewrite He. by apply M_ext.
  - intros key Hkey Hnone. unfold reject_call, dict_get.
    rewrite Hkey. apply M_ext; run; by rewrite Hnone.
  - intros key entry x e Hkey Hentry Hx Hcalls. unfold reject_call, dict_get.
    rewrite Hkey. run. rewrite Hentry. run. rewrite Hx. run.
    rewrite Hcalls. by run.
  - apply reject_call_raises.
Qed.

Lemma reject_call_failure_modes_witness :
  to_key (PStr "999") = Ok (HStr "999")
  ∧ xsi_user_map Scenario.monitor !! HStr "999" = None
  ∧ reject_call Scenario.lm Scenario.monitor (PStr "999") (PStr "call-7")
    = Run [EReject (PStr "999") (PStr "call-7");
           ELog "No XSI instance found for User ID"] (Ok tt).
Proof.
  split; [reflexivity|]. split; [reflexivity|].
  apply (proj1 (proj2 (reject_call_failure_modes Scenario.lm
                         Scenario.monitor (PStr "999") (PStr "call-7")))
           (HStr "999"));
    reflexivity.
Defined.

(** ** More on the loop *)

(** X5. Falsy queue items ([None], empty payloads) are skipped without
    being handled and without a pause: the loop runs as it does on the
    queue without them. *)
Theorem monitor_loop_skips_falsy_events lm format_exc handle queue :
  monitor_loop lm format_exc handle queue
  = monitor_loop lm format_exc handle
      (List.filter (λ a, truthy a.2) queue).
Proof.
  induction queue as [|[w event] rest IH]; [done|].
  simpl. destruct (truthy event) eqn:Hev; simpl; rewrite IH; [done|].
  apply M_ext; run; unfold monitor_step; rewrite Hev; by run.
Qed.

(** ** More on the oracle *)

Section OracleExtras.
Local Open Scope Q_scope.

(** One fresh sample is enough for the oracle to permit. *)
Lemma fresh_sample_permits c w uid db r :
  session w = Connected db →
  is_Some (query_allow_list db uid) →
  r ∈ time_locations_of db uid →
  fresh_enough c w r = true →
  outcome (check_user_permission c w uid) = Ok true.
Proof.
  intros Hs [a Hq] Hr Hfresh.
  destruct (check_user_permission_connected c w uid db Hs) as [_ H].
  rewrite Hq in H.
  destruct (time_locations_of db uid) as [|r0 rows] eqn:Hrows;
    [by apply elem_of_nil in Hr|].
  destruct H as (m & Hm & Hmax & ->). f_equal.
  unfold fresh_enough in *. apply Qle_bool_iff in Hfresh.
  apply Qle_bool_iff. specialize (Hmax r Hr). lra.
Qed.

(** A permitted user has a record and a fresh sample. *)
Lemma permitted_has_fresh_sample c w uid db :
  session w = Connected db →
  outcome (check_user_permission c w uid) = Ok true →
  is_Some (query_allow_list db uid)
  ∧ ∃ r, r ∈ time_locations_of db uid ∧ fresh_enough c w r = true.
Proof.
  intros Hs Hp.
  destruct (check_user_permission_connected c w uid db Hs) as [_ H].
  destruct (query_allow_list db uid) as [a|]; [|congruence].
  destruct (time_locations_of db uid) as [|r0 rows] eqn:Hrows; [congruence|].
  destruct H as (r & Hr & _ & E). rewrite E in Hp. injection Hp as Hfresh.
  split; [by eexists|]. by exists r.
Qed.

(** X6. While the storage answers, a user is permitted exactly when the
    user has an allow-list record and at least one stored sample that is
    fresh: one fresh sample suffices, however many stale ones are
    stored with it. In every other case the answer is false. *)
Theorem check_user_permission_iff_some_fresh_sample c w uid db :
  session w = Connected db →
  (outcome (check_user_permission c w uid) = Ok true
   ↔ is_Some (query_allow_list db uid)
     ∧ ∃ r, r ∈ time_locations_of db uid ∧ fresh_enough c w r = true)
  ∧ (outcome (check_user_permission c w uid) ≠ Ok true →
     outcome (check_user_permission c w uid) = Ok false).
Proof.
  intros Hs. split.
  - split; [by apply permitted_has_fresh_sample|].
    intros [Hq (r & Hr & Hfresh)]. by eapply fresh_sample_permits.
  - destruct (check_user_permission_connected c w uid db Hs) as [_ H].
    destruct (query_allow_list db uid) as [a|]; [|done].
    destruct (time_locations_of db uid) as [|r0 rows]; [done|].
    destruct H as (r & _ & _ & ->). by destruct (fresh_enough c w r).
Qed.

Lemma check_user_permission_iff_some_fresh_sample_witness :
  session Scenario.world_on_time = Connected Scenario.store
  ∧ (outcome (check_user_permission settings Scenario.world_on_time "acct-1")
     = Ok true
     ↔ is_Some (query_allow_list Scenario.store "acct-1")
       ∧ ∃ r, r ∈ time_locations_of Scenario.store "acct-1"
              ∧ fresh_enough settings Scenario.world_on_time r = true).
Proof.
  split; [reflexivity|].
  apply (proj1 (check_user_permission_iff_some_fresh_sample settings
                  Scenario.world_on_time "acct-1" Scenario.store eq_refl)).
Defined.

(** X7. Permission only decays with time: on an unchanged store, a user
    who is permitted at some instant was permitted at every earlier
    instant, so once the oracle denies a user it keeps denying until a
    new sample is stored. *)
Theorem check_user_permission_decays c db uid earlier later :
  earlier <= later →
  outcome (check_user_permission c
             {| session := Connected db; now := later |} uid) = Ok true →
  outcome (check_user_permission c
             {| session := Connected db; now := earlier |} uid) = Ok true.
Proof.
  intros Hle Hlater.
  apply (permitted_has_fresh_sample c
           {| session := Connected db; now := later |} uid db eq_refl)
    in Hlater as [Hq (r & Hr & Hfresh)].
  apply (fresh_sample_permits c
           {| session := Connected db; now := earlier |} uid db r eq_refl);
    [done | done |].
  unfold fresh_enough in *. simpl in *.
  apply Qle_bool_iff in Hfresh. apply Qle_bool_iff. lra.
Qed.

Lemma check_user_permission_decays_witness :
  (999 <= 1000)
  ∧ outcome (check_user_permission settings
               {| session := Connected Scenario.store; now := 1000 |}
               "acct-1") = Ok true
  ∧ outcome (check_user_permission settings
               {| session := Connected Scenario.store; now := 999 |}
               "acct-1") = Ok true.
Proof.
  assert (999 <= 1000) as Hle by (vm_compute; discriminate).
  split; [exact Hle|]. split; [reflexivity|].
  apply (check_user_permission_decays settings Scenario.store "acct-1"
           999 1000 Hle).
  reflexivity.
Defined.
End OracleExtras.

Lemma find_related {A} (same : A → A → Prop) (f : A → bool) l1 l2 :
  (∀ a1 a2, same a1 a2 → f a1 = f a2) →
  Forall2 same l1 l2 →
  option_Forall2 same (List.find f l1) (List.find f l2).
Proof.
  intros Hf Hl. induction Hl as [|a1 a2 l1 l2 Ha _ IH]; simpl; [constructor|].
  rewrite (Hf _ _ Ha). destruct (f a2); [by constructor | done].
Qed.

(** X8. The [allow_caller] flag of an allow-list record plays no part in
    admission: on two stores that differ only in those flags the oracle
    runs identically, so a record whose flag is false permits as well as
    one whose flag is true. *)
Theorem check_user_permission_ignores_allow_caller c t db1 db2 uid :
  differ_only_in_allow_caller db1 db2 →
  check_user_permission c {| session := Connected db1; now := t |} uid
  = check_user_permission c {| session := Connected db2; now := t |} uid.
Proof.
  intros (_ & Hrows & Hallow).
  unfold check_user_permission, get_allow_list_entry_by_user_id. simpl.
  unfold query_allow_list, time_locations_of. rewrite Hrows.
  assert (option_Forall2 (λ a1 a2, al_user_id a1 = al_user_id a2)
            (List.find (λ r, String.eqb (al_user_id r) uid) (allow_list db1))
            (List.find (λ r, String.eqb (al_user_id r) uid) (allow_list db2)))
    as [a1 a2 Ha|].
  { apply find_related; [|done]. by intros a1 a2 ->. }
  - rewrite Ha. by apply M_ext; run.
  - done.
Qed.

Lemma check_user_permission_ignores_allow_caller_witness :
  let revoked := {|
    user_list := user_list Scenario.store;
    allow_list := [{| al_user_id := "acct-1"; al_allow_caller := false |}];
    time_locations := time_locations Scenario.store |} in
  differ_only_in_allow_caller Scenario.store revoked
  ∧ outcome (check_user_permission settings
               {| session := Connected revoked; now := 1000 |} "acct-1")
    = Ok true.
Proof.
  intros revoked.
  assert (differ_only_in_allow_caller Scenario.store revoked) as Hdiff.
  { split; [reflexivity|]. split; [reflexivity|].
    constructor; [reflexivity | constructor]. }
  split; [exact Hdiff|].
  rewrite <- (check_user_permission_ignores_allow_caller settings 1000%Q
                Scenario.store revoked "acct-1" Hdiff).
  reflexivity.
Defined.

(** ** The location-update route *)

Lemma update_first_Some uid row rows rows' :
  tl_user_id row = uid →
  update_first uid row rows = Some rows' →
  List.map tl_user_id rows' = List.map tl_user_id rows
  ∧ row ∈ rows'
  ∧ ∀ uid', uid' ≠ uid →
      List.filter (λ r, String.eqb (tl_user_id r) uid') rows'
      = List.filter (λ r, String.eqb (tl_user_id r) uid') rows.
Proof.
  intros Hrow. revert rows'.
  induction rows as [|r rows IH]; intros rows'; simpl; [done|].
  destruct (String.eqb (tl_user_id r) uid) eqn:Hr.
  - intros [= <-]. apply String.eqb_eq in Hr. simpl. rewrite Hrow, Hr.
    split; [done|]. split; [apply list_elem_of_here|].
    intros uid' Hne. apply String.eqb_neq in Hne.
    by rewrite String.eqb_sym, Hne.
  - destruct (update_first uid row rows) as [rows1|]; [|done].
    intros [= <-]. destruct (IH rows1 eq_refl) as (Hmap & Hin & Hother).
    simpl. rewrite Hmap. split; [done|].
    split; [by apply list_elem_of_further|].
    intros uid' Hne. by rewrite (Hother uid' Hne).
Qed.

Lemma update_first_None uid row rows :
  update_first uid row rows = None → uid ∉ List.map tl_user_id rows.
Proof.
  induction rows as [|r rows IH]; simpl; [by intros _ ?%elem_of_nil|].
  destruct (String.eqb (tl_user_id r) uid) eqn:Hr; [done|].
  destruct (update_first uid row rows); [done|].
  intros _ [Heq|Hin]%elem_of_cons; [|by apply IH].
  apply String.eqb_neq in Hr. done.
Qed.

Lemma find_app_None {A} (f : A → bool) l x :
  List.find f l = None → List.find f (l ++ [x]) = if f x then Some x else None.
Proof.
  induction l as [|a l IH]; simpl; [done|].
  destruct (f a); [done | apply IH].
Qed.

Lemma find_app_Some {A} (f : A → bool) l l' a :
  List.find f l = Some a → List.find f (l ++ l') = Some a.
Proof.
  induction l as [|b l IH]; simpl; [done|].
  destruct (f b); [done | apply IH].
Qed.

Lemma find_None_not_in uid (l : list AllowList) :
  List.find (λ r, String.eqb (al_user_id r) uid) l = None →
  uid ∉ List.map al_user_id l.
Proof.
  induction l as [|a l IH]; simpl; [by intros _ ?%elem_of_nil|].
  destruct (String.eqb (al_user_id a) uid) eqn:Ha; [done|].
  intros Hl [Heq|Hin]%elem_of_cons; [|by apply IH].
  apply String.eqb_neq in Ha. done.
Qed.

Lemma update_time_location_db_cases c t data s :
  (accepted c data s = false
   ∧ ∃ status msg,
       status ≠ 200%Z
       ∧ outcome (update_time_location_db c t data s)
         = Ok (JSONResponse status msg, s))
  ∨ (accepted c data s = true
     ∧ ∃ db uid msg,
         s = Connected db
         ∧ session_user s (sessionToken data) = Some uid
         ∧ outcome (update_time_location_db c t data s)
           = Ok (JSONResponse 200 msg, Connected (stored db t uid data))).
Proof.
  unfold update_time_location_db, accepted, read_user_list_by_token, stored.
  destruct (String.eqb (sessionToken data) EmptyString) eqn:Htok.
  { left. split; [done|]. run. eexists _, _. split; [|reflexivity]. done. }
  destruct s as [db|text].
  2: { left. split; [done|]. run. eexists _, _. split; [|reflexivity]. done. }
  simpl.
  destruct (List.find _ (user_list db)) as [ule|] eqn:Hfind; simpl.
  2: { left. split; [done|]. run. eexists _, _. split; [|reflexivity]. done. }
  destruct (in_country c (latitude data) (longitude data)) eqn:Hin; simpl.
  2: { left. split; [done|]. run. eexists _, _. split; [|reflexivity]. done. }
  right. split; [done|]. run.
  destruct (query_allow_list db (ul_user_id ule)) eqn:Hq; run;
    exists db, (ul_user_id ule); eexists; rewrite Hq; by repeat split.
Qed.

Lemma stored_facts db t uid data :
  user_list (stored db t uid data) = user_list db
  ∧ is_Some (query_allow_list (stored db t uid data) uid)
  ∧ (∃ r, r ∈ time_locations_of (stored db t uid data) uid
          ∧ tl_last_update r = t)
  ∧ (∀ uid', uid' ≠ uid →
       query_allow_list (stored db t uid data) uid'
       = query_allow_list db uid'
       ∧ time_locations_of (stored db t uid data) uid'
         = time_locations_of db uid')
  ∧ (one_row_per_user db → one_row_per_user (stored db t uid data)).
Proof.
  unfold stored.
  set (row := {| tl_user_id := uid; tl_session_token := sessionToken data;
                 tl_time := time data; tl_latitude := latitude data;
                 tl_longitude := longitude data; tl_last_update := t |}).
  set (db0 := match query_allow_list db uid with
              | Some _ => db
              | None => create_allow_list_entry db uid true
              end).
  assert (user_list db0 = user_list db) as Husers.
  { unfold db0. by destruct (query_allow_list db uid). }
  assert (time_locations db0 = time_locations db) as Hrows.
  { unfold db0. by destruct (query_allow_list db uid). }
  assert (is_Some (query_allow_list db0 uid)) as Hallowed.
  { unfold db0. destruct (query_allow_list db uid) eqn:Hq; [by rewrite Hq|].
    unfold query_allow_list in *. simpl.
    rewrite (find_app_None _ _ _ Hq). simpl. by rewrite String.eqb_refl. }
  assert (∀ uid', uid' ≠ uid →
            query_allow_list db0 uid' = query_allow_list db uid') as Hothers.
  { intros uid' Hne. unfold db0.
    destruct (query_allow_list db uid) eqn:Hq; [done|].
    unfold query_allow_list in *. simpl.
    destruct (List.find (λ r, String.eqb (al_user_id r) uid')
                (allow_list db)) as [a|] eqn:Hq'.
    - by rewrite (find_app_Some _ _ _ _ Hq').
    - rewrite (find_app_None _ _ _ Hq'). simpl.
      apply String.eqb_neq in Hne. by rewrite String.eqb_sym, Hne. }
  assert (one_row_per_user db → NoDup (List.map al_user_id (allow_list db0)))
    as Hnodup.
  { intros [Hal _]. unfold db0.
    destruct (query_allow_list db uid) eqn:Hq; [done|]. simpl.
    rewrite List.map_app. simpl. apply list.NoDup_app. split; [done|].
    split; [|apply list.NoDup_singleton].
    intros x Hx ->%list_elem_of_singleton.
    by apply (find_None_not_in _ _ Hq). }
  unfold update_time_location_entry, time_locations_of, query_allow_list,
    one_row_per_user in *. simpl. fold row. rewrite Hrows.
  split; [done|]. split; [done|].
  destruct (update_first uid row (time_locations db)) as [rows'|] eqn:Hup.
  - destruct (update_first_Some uid row _ _ eq_refl Hup)
      as (Hmap & Hin & Hother).
    split.
    { exists row. split; [|done].
      apply list_elem_of_In, List.filter_In. split;
        [by apply list_elem_of_In | apply String.eqb_refl]. }
    split.
    { intros uid' Hne. split; [by apply Hothers | by apply Hother]. }
    intros Hone. split; [by apply Hnodup|]. rewrite Hmap. apply Hone.
  - split.
    { exists row. split; [|done].
      apply list_elem_of_In, List.filter_In. split;
        [| apply String.eqb_refl].
      apply List.in_or_app. right. by left. }
    split.
    { intros uid' Hne. split; [by apply Hothers|].
      rewrite List.filter_app. simpl.
      apply String.eqb_neq in Hne. rewrite String.eqb_sym, Hne.
      by rewrite app_nil_r. }
    intros Hone. split; [by apply Hnodup|].
    rewrite List.map_app. simpl. apply list.NoDup_app.
    split; [apply Hone|]. split; [|apply list.NoDup_singleton].
    intros x Hx ->%list_elem_of_singleton.
    by apply (update_first_None _ _ _ Hup).
Qed.

Lemma check_user_permission_ext c t db1 db2 uid :
  query_allow_list db1 uid = query_allow_list db2 uid →
  time_locations_of db1 uid = time_locations_of db2 uid →
  check_user_permission c {| session := Connected db1; now := t |} uid
  = check_user_permission c {| session := Connected db2; now := t |} uid.
Proof.
  intros Hq Hrows.
  unfold check_user_permission, get_allow_list_entry_by_user_id. simpl.
  rewrite Hq. destruct (query_allow_list db2 uid) as [a|] eqn:Ha; [|done].
  rewrite (query_allow_list_user_id _ _ _ Ha), Hrows. done.
Qed.

(** X11. A location update concerns one user only: whatever the route
    answers, the oracle runs afterwards for every other user exactly as
    it did before. *)
Theorem update_leaves_other_users c t data s response s' uid' c' t' :
  outcome (update_time_location_db c t data s) = Ok (response, s') →
  session_user s (sessionToken data) ≠ Some uid' →
  check_user_permission c' {| session := s'; now := t' |} uid'
  = check_user_permission c' {| session := s; now := t' |} uid'.
Proof.
  intros Hup Hother.
  destruct (update_time_location_db_cases c t data s)
    as [[_ (status & msg & Hstatus & E)]
       | [_ (db & uid & msg & -> & Huser & E)]];
    rewrite E in Hup.
  { by injection Hup as _ <-. }
  injection Hup as _ <-.
  assert (uid' ≠ uid) as Hne by (intros ->; by rewrite Huser in Hother).
  destruct (stored_facts db t uid data) as (_ & _ & _ & Hothers & _).
  destruct (Hothers uid' Hne) as [Hq Hrows].
  by apply check_user_permission_ext.
Qed.

Lemma update_leaves_other_users_witness :
  let data := {| sessionToken := "tok-1"; time := "2024-03-01T10:20:00Z";
                 latitude := 15; longitude := 40 |} in
  let s := Connected Scenario.store in
  ∃ response s',
    outcome (update_time_location_db settings 2000 data s)
    = Ok (response, s')
    ∧ session_user s "tok-1" ≠ Some "acct-2"
    ∧ check_user_permission settings {| session := s'; now := 2000 |} "acct-2"
      = check_user_permission settings {| session := s; now := 2000 |}
          "acct-2".
Proof.
  intros data s. eexists _, _.
  assert (session_user s "tok-1" ≠ Some "acct-2") as Hne
    by (vm_compute; discriminate).
  split; [reflexivity|]. split; [exact Hne|].
  exact (update_leaves_other_users settings 2000%Q data s _ _ "acct-2"
           settings 2000%Q eq_refl Hne).
Defined.

(** X12. The route keeps the store well keyed: if every user has at most
    one allow-list record and at most one stored sample before a request,
    the same holds afterwards, whatever the answer, and the table of
    sessions is never touched. *)
Theorem update_keeps_one_row_per_user c t data db response s' :
  one_row_per_user db →
  outcome (update_time_location_db c t data (Connected db))
  = Ok (response, s') →
  ∃ db', s' = Connected db'
         ∧ one_row_per_user db'
         ∧ user_list db' = user_list db.
Proof.
  intros Hone Hup.
  destruct (update_time_location_db_cases c t data (Connected db))
    as [[_ (status & msg & Hstatus & E)]
       | [_ (db0 & uid & msg & [= <-] & Huser & E)]];
    rewrite E in Hup; injection Hup as _ <-.
  { by exists db. }
  destruct (stored_facts db t uid data) as (Husers & _ & _ & _ & Hkeep).
  exists (stored db t uid data). split; [done|]. split; [by apply Hkeep|done].
Qed.

Lemma update_keeps_one_row_per_user_witness :
  let data := {| sessionToken := "tok-1"; time := "2024-03-01T10:20:00Z";
                 latitude := 15; longitude := 40 |} in
  one_row_per_user Scenario.store
  ∧ ∃ db',
      outcome (update_time_location_db settings 2000 data
                 (Connected Scenario.store))
      = Ok (JSONResponse 200 "Geolocation updated successfully in database",
            Connected db')
      ∧ one_row_per_user db'
      ∧ user_list db' = user_list Scenario.store.
Proof.
  intros data.
  assert (one_row_per_user Scenario.store) as Hone.
  { split; simpl; apply list.NoDup_singleton. }
  split; [exact Hone|].
  destruct (update_keeps_one_row_per_user settings 2000%Q data Scenario.store
              _ _ Hone eq_refl) as (db' & Hs' & Hkeep & Husers).
  exists db'. split; [by rewrite <- Hs'|]. by split.
Defined.

(** ** More on the directory *)

Lemma entry_of_Ok_inv person k e :
  entry_of person = Ok (k, e) →
  xsi_instance e = Some (xsi person)
  ∧ to_key (xsi_user_id e) = Ok k
  ∧ webex_user_id e = person_id person
  ∧ remote_party_name e = person_name person.
Proof.
  unfold entry_of. intros H.
  repeat (apply pyres_bind_Ok in H as (? & ? & H)).
  injection H as <- <-. by simpl.
Qed.

Lemma add_people_Ok_inv people m m' :
  outcome (add_people people m) = Ok m' →
  ∃ entries,
    Forall2 (λ p ke, start_xsi p = Ok tt ∧ entry_of p = Ok ke) people entries
    ∧ m' = foldl (λ m ke, <[ke.1 := ke.2]> m) m entries.
Proof.
  revert m. induction people as [|p people IH]; intros m; simpl.
  - intros [= <-]. exists []. by split; [constructor|].
  - destruct (start_xsi p) as [[]|] eqn:Hs.
    2: { rewrite (add_person_start_fails _ _ _ Hs). by run. }
    destruct (entry_of p) as [ke|] eqn:He.
    2: { unfold add_person. rewrite Hs, He. by run. }
    rewrite (add_person_ok _ _ _ Hs He). run.
    intros (entries & Hall & ->)%IH.
    exists (ke :: entries). by split; [constructor|].
Qed.

Lemma foldl_insert_lookup (entries : list (hashable * DirectoryEntry))
    (m : gmap hashable DirectoryEntry) k e :
  foldl (λ m ke, <[ke.1 := ke.2]> m) m entries !! k = Some e →
  (k, e) ∈ entries ∨ m !! k = Some e.
Proof.
  revert m. induction entries as [|[k' e'] entries IH]; intros m; simpl;
    [by right|].
  intros [Hin | Hm]%IH; [left; by apply list_elem_of_further|].
  apply lookup_insert_Some in Hm as [[<- <-] | [_ Hm]];
    [left; apply list_elem_of_here | by right].
Qed.

Lemma foldl_insert_lookup_other
    (entries : list (hashable * DirectoryEntry))
    (m : gmap hashable DirectoryEntry) k :
  Forall (λ ke, ke.1 ≠ k) entries →
  foldl (λ m ke, <[ke.1 := ke.2]> m) m entries !! k = m !! k.
Proof.
  intros Hall. revert m.
  induction Hall as [|[k' e'] entries Hne _ IH]; intros m; simpl; [done|].
  rewrite IH. by apply lookup_insert_ne.
Qed.

Lemma init_Ok_inv people self :
  outcome (init people) = Ok self →
  all_people self = people
  ∧ call_to_user_map self = ∅
  ∧ outcome (add_people people ∅) = Ok (xsi_user_map self).
Proof.
  unfold init. run.
  destruct (outcome (add_people people ∅)) as [m|]; run; [|done].
  by intros [= <-].
Qed.

(** X13. What a built directory holds. Every entry of the directory that
    [__init__] returns comes from a roster member: it is filed under the
    key of its own XSI user id, it carries that member's account id and
    name, and it always has the member's platform handle, so
    [reject_call] never finds an entry without one. *)
Theorem init_entries_come_from_the_roster people self k e :
  outcome (init people) = Ok self →
  xsi_user_map self !! k = Some e →
  ∃ p, p ∈ people
       ∧ entry_of p = Ok (k, e)
       ∧ to_key (xsi_user_id e) = Ok k
       ∧ webex_user_id e = person_id p
       ∧ remote_party_name e = person_name p
       ∧ xsi_instance e = Some (xsi p).
Proof.
  intros (_ & _ & Hmap)%init_Ok_inv Hk.
  apply add_people_Ok_inv in Hmap as (entries & Hall & Hm).
  rewrite Hm in Hk.
  apply foldl_insert_lookup in Hk as [Hin | Hempty];
    [|by rewrite lookup_empty in Hempty].
  apply list_elem_of_lookup in Hin as [i Hi].
  destruct (Forall2_lookup_r _ _ _ _ _ Hall Hi) as (p & Hp & _ & He).
  exists p. split; [by eapply list_elem_of_lookup_2|]. split; [done|].
  destruct (entry_of_Ok_inv _ _ _ He) as (? & ? & ? & ?). done.
Qed.

Lemma init_entries_come_from_the_roster_witness :
  outcome (init [Scenario.person_100; Scenario.person_200])
  = Ok Scenario.monitor
  ∧ xsi_user_map Scenario.monitor !! HStr "100" = Some Scenario.entry_100
  ∧ ∃ p, p ∈ [Scenario.person_100; Scenario.person_200]
         ∧ entry_of p = Ok (HStr "100", Scenario.entry_100)
         ∧ to_key (xsi_user_id Scenario.entry_100) = Ok (HStr "100")
         ∧ webex_user_id Scenario.entry_100 = person_id p
         ∧ remote_party_name Scenario.entry_100 = person_name p
         ∧ xsi_instance Scenario.entry_100 = Some (xsi p).
Proof.
  split; [reflexivity|]. split; [reflexivity|].
  apply (init_entries_come_from_the_roster
           [Scenario.person_100; Scenario.person_200] Scenario.monitor);
    reflexivity.
Defined.

(** X14. The last member wins. When the build succeeds, the entry filed
    under an XSI user id is that of the last roster member with that id:
    a member after whom nobody has the same id is found under it, and an
    earlier member with the same id is overwritten. *)
Theorem init_last_member_wins before p after self k e :
  outcome (init (before ++ p :: after)) = Ok self →
  entry_of p = Ok (k, e) →
  (∀ q ke, q ∈ after → entry_of q = Ok ke → ke.1 ≠ k) →
  xsi_user_map self !! k = Some e.
Proof.
  intros (_ & _ & Hmap)%init_Ok_inv Hp Hafter.
  apply add_people_Ok_inv in Hmap as (entries & Hall & ->).
  apply Forall2_app_inv_l in Hall as (eb & ea' & Hb & Ha & ->).
  apply Forall2_cons_inv_l in Ha as (ke & ea & [_ Hke] & Ha & ->).
  rewrite Hp in Hke. injection Hke as <-.
  rewrite foldl_app. simpl. rewrite foldl_insert_lookup_other.
  - apply lookup_insert_eq.
  - apply Forall_forall. intros ke' Hin%list_elem_of_In.
    apply list_elem_of_lookup in Hin as [i Hi].
    destruct (Forall2_lookup_r _ _ _ _ _ Ha Hi) as (q & Hq & _ & He).
    eapply Hafter; [by eapply list_elem_of_lookup_2 | done].
Qed.

Lemma init_last_member_wins_witness :
  let twin := {|
    person_id := "acct-9"; person_name := "Xan"; wxc_numbers := PNone;
    start_xsi := Ok tt; xsi := Scenario.xsi_100 |} in
  ∃ self e,
    outcome (init ([Scenario.person_100] ++ twin :: [Scenario.person_200]))
    = Ok self
    ∧ entry_of twin = Ok (HStr "100", e)
    ∧ xsi_user_map self !! HStr "100" = Some e
    ∧ webex_user_id e = "acct-9".
Proof.
  intros twin. eexists _, _.
  split; [reflexivity|]. split; [reflexivity|].
  split; [|reflexivity].
  eapply (init_last_member_wins [Scenario.person_100] twin
            [Scenario.person_200]); [reflexivity | reflexivity |].
  intros q ke Hq%list_elem_of_singleton Hke. rewrite Hq in Hke.
  injection Hke as <-. discriminate.
Defined.

Lemma first_primary_Ok l dflt r :
  first_primary l dflt = Ok r →
  r = default dflt (List.find flagged_primary l).
Proof.
  induction l as [|pn l IH]; simpl; [by intros [= <-]|].
  destruct pn as [| | | |d]; try done. simpl. rewrite pyres_bind_ok.
  destruct (truthy (default (PBool false) (assoc "primary" d)));
    [by intros [= <-] | apply IH].
Qed.

(** X15. The phone number of a directory entry. For a member whose phone
    numbers are a list, the number chosen is the first one flagged
    primary, or the first one when none is flagged; the entry's phone
    number is the [directNumber] of the chosen number, and the sentinel
    ["No number available"] (with an empty extension) when there is no
    number to choose. *)
Theorem entry_of_phone_number person numbers k e :
  phone_numbers_of person = PList numbers →
  entry_of person = Ok (k, e) →
  let chosen :=
    default (default PNone (head numbers))
      (List.find flagged_primary numbers) in
  (truthy chosen = true →
     py_get chosen "directNumber" PNone = Ok (phone_number e))
  ∧ (truthy chosen = false →
       phone_number e = PStr "No number available"
       ∧ extension e = PStr EmptyString).
Proof.
  unfold entry_of, phone_numbers_of. intros -> H.
  apply pyres_bind_Ok in H as (primary & Hprimary & H).
  simpl in Hprimary. apply first_primary_Ok in Hprimary.
  assert (primary = default (default PNone (head numbers))
                      (List.find flagged_primary numbers)) as ->.
  { rewrite Hprimary. by destruct numbers. }
  cbv zeta. set (chosen := default _ _) in *.
  repeat (apply pyres_bind_Ok in H as (? & ? & H)).
  injection H as <- <-. simpl.
  destruct (truthy chosen); split; try done.
  intros _. split; congruence.
Qed.

Lemma entry_of_phone_number_witness :
  let number := PDict [("primary", PBool true);
                       ("directNumber", PStr "+15550100");
                       ("extension", PStr "100")] in
  phone_numbers_of Scenario.person_100 = PList [number]
  ∧ entry_of Scenario.person_100 = Ok (HStr "100", Scenario.entry_100)
  ∧ py_get number "directNumber" PNone
    = Ok (phone_number Scenario.entry_100).
Proof.
  intros number. split; [reflexivity|]. split; [reflexivity|].
  apply (proj1 (entry_of_phone_number Scenario.person_100 [number]
                  (HStr "100") Scenario.entry_100 eq_refl eq_refl)).
  reflexivity.
Defined.

(** ** The admin token *)

Section AdminToken.
Local Open Scope Q_scope.

(** X18. [check_token] is fail-closed and never raises. It answers
    [(True, token)] exactly when the storage answers, a token is stored,
    the first stored token has an expiry time that the clock has not
    passed, and it has a refresh lifetime that the clock has not exceeded
    since the previous clock reading; the token it returns is then the
    stored access token. In every other case, storage failure and missing
    expiry data included, it answers [(False, None)]. *)
Theorem check_token_fail_closed a clock :
  ∃ valid found,
    outcome (check_token a clock) = Ok (valid, found)
    ∧ (valid = true ↔
       ∃ token rest at_ lifespan,
         a = AdminConnected (token :: rest)
         ∧ expires_at token = Some at_
         ∧ at_expiry_check clock <= at_
         ∧ refresh_token_expires_in token = Some lifespan
         ∧ at_refresh_check clock
           <= at_acquired_default clock + inject_Z lifespan)
    ∧ (valid = false → found = None)
    ∧ (valid = true →
       ∃ token rest,
         a = AdminConnected (token :: rest)
         ∧ found = Some (access_token token)).
Proof.
  unfold check_token, read_admin_token.
  destruct a as [[|token rest]|text].
  - exists false, None. run. split; [done|].
    split; [|done]. split; [done|]. by intros (? & ? & ? & ? & [=] & _).
  - unfold is_token_expired, is_refresh_token_expired. run.
    destruct (expires_at token) as [at_|] eqn:Hat; run.
    2: { exists false, None. split; [done|]. split; [|done].
         split; [done|]. intros (? & ? & ? & ? & [= <- <-] & Hat' & _).
         congruence. }
    destruct (Qgtb (at_expiry_check clock) at_) eqn:Hexp; run.
    { exists false, None. split; [done|]. split; [|done].
      split; [done|].
      intros (? & ? & at' & ? & [= <- <-] & Hat' & Hle & _).
      rewrite Hat in Hat'. injection Hat' as <-.
      apply Qgtb_true in Hexp. lra. }
    apply Qgtb_false in Hexp.
    destruct (refresh_token_expires_in token) as [life|] eqn:Hlife; run.
    2: { exists false, None. split; [done|]. split; [|done].
         split; [done|].
         intros (? & ? & ? & ? & [= <- <-] & _ & _ & Hlife' & _).
         congruence. }
    destruct (Qgtb (at_refresh_check clock) _) eqn:Href; run.
    { exists false, None. split; [done|]. split; [|done].
      split; [done|].
      intros (? & ? & ? & life' & [= <- <-] & _ & _ & Hlife' & Hle).
      rewrite Hlife in Hlife'. injection Hlife' as <-.
      apply Qgtb_true in Href. lra. }
    apply Qgtb_false in Href.
    exists true, (Some (access_token token)). split; [done|].
    split; [|split; [done | by eexists _, _]].
    split; [|done]. intros _. by eexists token, rest, at_, life.
  - exists false, None. run. split; [done|].
    split; [|done]. split; [done|]. by intros (? & ? & ? & ? & [=] & _).
Qed.
End AdminToken.
